(** * OAuth PKCE client ([login/pkce.js]): model and verification

    A shallow embedding of [OAuthClientServer] and of the JavaScript and
    Node.js primitives it relies on:

    - [Js]: string primitives ([charAt], global single-character
      [replace], the [/=*$/] replace, [encodeURIComponent]), truthiness,
      and property lookup on a plain object through [Object.prototype];
    - [Sha256], [Base64]: the digest behind
      [crypto.createHash('sha256').update(v).digest('base64')];
    - [Pkce]: the client object, its express route stack, its promises,
      and the operations [authorize], [close], [refresh], [revoke],
      [revokeAndGetLogoutUrl] and the two route handlers.

    Strings are byte strings (the UTF-8 encoding of the JavaScript
    string); every string the flow itself produces is ASCII. *)

From Stdlib Require Import ZArith NArith List String Ascii Bool Lia.
From Stdlib Require Import DecimalString.
From stdpp Require Import base gmap strings list.
Import ListNotations.

Local Open Scope string_scope.

(* ===================================================================== *)
(** ** JavaScript primitives *)
(* ===================================================================== *)

Module Js.

(** A string is the sequence of its bytes in UTF-8.  On a string of
    ASCII characters a byte is a UTF-16 code unit, so that positions and
    lengths are those of JavaScript; [is_ascii] tells such a string. *)
Definition is_ascii_char (c : ascii) : bool :=
  match c with
  | Ascii _ _ _ _ _ _ _ top => negb top
  end.

Fixpoint is_ascii (s : string) : bool :=
  match s with
  | EmptyString => true
  | String c r => is_ascii_char c && is_ascii r
  end.

(** [s.charAt(i)] for an ASCII [s]: the one-character string at index
    [i], or the empty string when [i] is out of range. *)
Fixpoint charAt (s : string) (i : nat) : string :=
  match s, i with
  | EmptyString, _ => ""
  | String c _, O => String c ""
  | String _ r, S j => charAt r j
  end.

(** Truthiness of a value that is either [undefined] or a string: only
    a non-empty string is truthy. *)
Definition truthy (v : option string) : bool :=
  match v with
  | Some (String _ _) => true
  | _ => false
  end.

(** [a || b]: [a] when it is truthy, [b] otherwise. *)
Definition or (a b : option string) : option string :=
  if truthy a then a else b.

(** [a === b] on values that are [undefined] or strings. *)
Definition strict_eq (a b : option string) : bool :=
  match a, b with
  | None, None => true
  | Some x, Some y => String.eqb x y
  | _, _ => false
  end.

(** [s.replace(/c/g, d)] for a one-character pattern [c]. *)
Fixpoint replace_all (c d : ascii) (s : string) : string :=
  match s with
  | EmptyString => ""
  | String x r =>
      String (if Ascii.eqb x c then d else x) (replace_all c d r)
  end.

(** Does [=*$] match at the start of [s]?  The star takes every [=] it
    can and gives some back when asked, but [$] only holds at the end of
    the input, so there is a match exactly when [s] is made of [=]
    only. *)
Fixpoint eq_star_end (s : string) : bool :=
  match s with
  | EmptyString => true
  | String x r => Ascii.eqb x "=" && eq_star_end r
  end.

(** [s.replace(/=*$/, '')]: without the [g] flag only the leftmost match
    is replaced; positions are tried from left to right. *)
Fixpoint replace_eq_tail (s : string) : string :=
  if eq_star_end s then ""
  else match s with
       | EmptyString => ""
       | String x r => String x (replace_eq_tail r)
       end.

(** Last character of a string, if any. *)
Fixpoint last_char (s : string) : option ascii :=
  match s with
  | EmptyString => None
  | String x EmptyString => Some x
  | String _ r => last_char r
  end.

(** Membership of a character in a string. *)
Fixpoint occurs (c : ascii) (s : string) : bool :=
  match s with
  | EmptyString => false
  | String x r => Ascii.eqb x c || occurs c r
  end.

(** The property names every plain object inherits from
    [Object.prototype]: for these, [obj[name]] is a function (or, for
    [__proto__], the prototype object) even when [obj] has no own
    property [name]. *)
Definition object_prototype_names : list string :=
  [ "constructor"; "__defineGetter__"; "__defineSetter__";
    "hasOwnProperty"; "__lookupGetter__"; "__lookupSetter__";
    "isPrototypeOf"; "propertyIsEnumerable"; "toString"; "valueOf";
    "__proto__"; "toLocaleString" ].

Definition inherited (k : string) : bool :=
  existsb (String.eqb k) object_prototype_names.

(** The result of [obj[k]] on an object literal used as a string map. *)
Inductive prop_value : Type :=
| Undefined
| Own (v : string)
| Inherited (name : string).

Definition get (obj : gmap string string) (k : string) : prop_value :=
  match obj !! k with
  | Some v => Own v
  | None => if inherited k then Inherited k else Undefined
  end.

(** [typeof v !== 'undefined']. *)
Definition defined (v : prop_value) : bool :=
  match v with
  | Undefined => false
  | _ => true
  end.

(** [String(v)] as used by template literals and [encodeURIComponent].
    The source text of a built-in function is
    [function name() { [native code] }]; the inherited [constructor] is
    the function [Object], and [__proto__] yields the prototype object
    itself. *)
Definition to_string (v : prop_value) : string :=
  match v with
  | Undefined => "undefined"
  | Own s => s
  | Inherited n =>
      if String.eqb n "__proto__" then "[object Object]"
      else if String.eqb n "constructor"
           then "function Object() { [native code] }"
           else "function " ++ n ++ "() { [native code] }"
  end.

(** Template-literal rendering of a value that may be [undefined]. *)
Definition show (v : option string) : string :=
  match v with
  | Some s => s
  | None => "undefined"
  end.

(** Template-literal rendering of a value that may be [null]. *)
Definition show_nullable (v : option string) : string :=
  match v with
  | Some s => s
  | None => "null"
  end.

(** [obj[k] = v] on an object literal: an own property is created or
    overwritten, except for the key [__proto__], whose setter ignores a
    string value. *)
Definition set (obj : gmap string string) (k v : string)
  : gmap string string :=
  if String.eqb k "__proto__" then obj else <[k:=v]> obj.

(** [delete obj[k]]: removes an own property, and does nothing when
    there is none (an inherited property stays). *)
Definition delete (obj : gmap string string) (k : string)
  : gmap string string :=
  base.delete k obj.

(** ASCII case mapping, as [toUpperCase] and [toLowerCase] act on the
    letters of the alphabet literal. *)
Definition upper_char (c : ascii) : ascii :=
  let n := nat_of_ascii c in
  if (97 <=? n)%nat && (n <=? 122)%nat then ascii_of_nat (n - 32) else c.
Definition lower_char (c : ascii) : ascii :=
  let n := nat_of_ascii c in
  if (65 <=? n)%nat && (n <=? 90)%nat then ascii_of_nat (n + 32) else c.

Fixpoint map_chars (f : ascii -> ascii) (s : string) : string :=
  match s with
  | EmptyString => ""
  | String c r => String (f c) (map_chars f r)
  end.

Definition toUpperCase : string -> string := map_chars upper_char.
Definition toLowerCase : string -> string := map_chars lower_char.

(** Decimal rendering of a number in a template literal. *)
Definition number_to_string (n : N) : string :=
  NilEmpty.string_of_uint (N.to_uint n).

(** *** [encodeURIComponent] and [decodeURIComponent] *)

(** Characters left as they are: letters, digits and [-_.!~*'()]. *)
Definition uri_unreserved (c : ascii) : bool :=
  let n := nat_of_ascii c in
  ((65 <=? n)%nat && (n <=? 90)%nat)
  || ((97 <=? n)%nat && (n <=? 122)%nat)
  || ((48 <=? n)%nat && (n <=? 57)%nat)
  || occurs c "-_.!~*'()".

Definition hex_digit (n : nat) : ascii :=
  match String.get n "0123456789ABCDEF" with
  | Some c => c
  | None => "0"%char
  end.

Definition hex_value (c : ascii) : option nat :=
  let n := nat_of_ascii c in
  if (48 <=? n)%nat && (n <=? 57)%nat then Some (n - 48)%nat
  else if (65 <=? n)%nat && (n <=? 70)%nat then Some (n - 55)%nat
  else if (97 <=? n)%nat && (n <=? 102)%nat then Some (n - 87)%nat
  else None.

Fixpoint encodeURIComponent (s : string) : string :=
  match s with
  | EmptyString => ""
  | String c r =>
      if uri_unreserved c then String c (encodeURIComponent r)
      else
        let n := nat_of_ascii c in
        String "%" (String (hex_digit (n / 16))
                      (String (hex_digit (n mod 16))
                         (encodeURIComponent r)))
  end.

(** [None] stands for the [URIError] thrown on a malformed escape. *)
Fixpoint decodeURIComponent (s : string) : option string :=
  match s with
  | EmptyString => Some ""
  | String c r =>
      if Ascii.eqb c "%" then
        match r with
        | String h (String l r') =>
            match hex_value h, hex_value l, decodeURIComponent r' with
            | Some a, Some b, Some d =>
                Some (String (ascii_of_nat (a * 16 + b)) d)
            | _, _, _ => None
            end
        | _ => None
        end
      else
        match decodeURIComponent r with
        | Some d => Some (String c d)
        | None => None
        end
  end.

(** *** Reading a query parameter of a URL *)

(** The part of [s] before the first [c] (all of [s] without one). *)
Fixpoint before (c : ascii) (s : string) : string :=
  match s with
  | EmptyString => ""
  | String x r => if Ascii.eqb x c then "" else String x (before c r)
  end.

(** The part of [s] after the first [c], if there is one. *)
Fixpoint after (c : ascii) (s : string) : option string :=
  match s with
  | EmptyString => None
  | String x r => if Ascii.eqb x c then Some r else after c r
  end.

(** [s.split(c)]. *)
Fixpoint split (c : ascii) (s : string) : list string :=
  match s with
  | EmptyString => [""]
  | String x r =>
      if Ascii.eqb x c then "" :: split c r
      else match split c r with
           | h :: t => String x h :: t
           | [] => [String x ""]
           end
  end.

(** [l.join(sep)] for a one-character separator. *)
Fixpoint join (sep : ascii) (l : list string) : string :=
  match l with
  | [] => ""
  | [x] => x
  | x :: r => x ++ String sep (join sep r)
  end.

(** The first [name=value] pair of a list of pairs, value undecoded. *)
Fixpoint first_pair (name : string) (pairs : list string) : option string :=
  match pairs with
  | [] => None
  | p :: rest =>
      if String.eqb (before "=" p) name
      then Some (match after "=" p with Some v => v | None => "" end)
      else first_pair name rest
  end.

(** The query parameter [name] of a URL: the fragment is cut off at the
    first [#], the query starts after the first [?], pairs are separated
    by [&], the first pair named [name] counts and its value is
    percent-decoded. *)
Definition query_param (name url : string) : option string :=
  match after "?" (before "#" url) with
  | None => None
  | Some q =>
      match first_pair name (split "&" q) with
      | Some v => decodeURIComponent v
      | None => None
      end
  end.

End Js.

(* ===================================================================== *)
(** ** SHA-256 (FIPS 180-4) on 32-bit words held in [Z] *)
(* ===================================================================== *)

Module Sha256.
Local Open Scope Z_scope.

Definition wrap32 (x : Z) : Z := x mod 2 ^ 32.
Definition add32 (x y : Z) : Z := wrap32 (x + y).
Definition rotr (n x : Z) : Z :=
  Z.lor (Z.shiftr x n) (wrap32 (Z.shiftl x (32 - n))).
Definition not32 (x : Z) : Z := Z.lxor x (2 ^ 32 - 1).

Definition ch (x y z : Z) : Z :=
  Z.lxor (Z.land x y) (Z.land (not32 x) z).
Definition maj (x y z : Z) : Z :=
  Z.lxor (Z.lxor (Z.land x y) (Z.land x z)) (Z.land y z).
Definition bsig0 (x : Z) : Z :=
  Z.lxor (Z.lxor (rotr 2 x) (rotr 13 x)) (rotr 22 x).
Definition bsig1 (x : Z) : Z :=
  Z.lxor (Z.lxor (rotr 6 x) (rotr 11 x)) (rotr 25 x).
Definition ssig0 (x : Z) : Z :=
  Z.lxor (Z.lxor (rotr 7 x) (rotr 18 x)) (Z.shiftr x 3).
Definition ssig1 (x : Z) : Z :=
  Z.lxor (Z.lxor (rotr 17 x) (rotr 19 x)) (Z.shiftr x 10).

(** The first 64 primes. *)
Definition primes : list Z :=
  [ 2; 3; 5; 7; 11; 13; 17; 19; 23; 29; 31; 37; 41; 43; 47; 53;
    59; 61; 67; 71; 73; 79; 83; 89; 97; 101; 103; 107; 109; 113; 127; 131;
    137; 139; 149; 151; 157; 163; 167; 173; 179; 181; 191; 193; 197; 199;
    211; 223; 227; 229; 233; 239; 241; 251; 257; 263; 269; 271; 277; 281;
    283; 293; 307; 311 ].

(** Integer cube root by bisection on the bits below [2 ^ k]. *)
Fixpoint cube_root (k : nat) (acc n : Z) : Z :=
  match k with
  | O => acc
  | S j =>
      let c := acc + 2 ^ Z.of_nat j in
      if c * c * c <=? n then cube_root j c n else cube_root j acc n
  end.

(** The first 32 bits of the fractional part of the cube root of [p]. *)
Definition cube_root_bits (p : Z) : Z := wrap32 (cube_root 36 0 (p * 2 ^ 96)).

(** The first 32 bits of the fractional part of the square root of [p]. *)
Definition square_root_bits (p : Z) : Z := wrap32 (Z.sqrt (p * 2 ^ 64)).

(** The round constants come from the cube roots of the first 64
    primes, the initial hash value from the square roots of the first
    8. *)
Definition round_constants : list Z :=
  Eval cbv in List.map cube_root_bits primes.

Definition initial_hash : list Z :=
  Eval cbv in List.map square_root_bits (firstn 8 primes).

(** Big-endian bytes of a number, [n] of them. *)
Fixpoint be_bytes (n : nat) (x : Z) : list Z :=
  match n with
  | O => []
  | S m => (Z.shiftr x (8 * Z.of_nat m)) mod 256 :: be_bytes m x
  end.

(** Padding: a [1] bit, zeros up to 56 modulo 64, the bit length on
    eight bytes. *)
Definition pad (msg : list Z) : list Z :=
  let len := Z.of_nat (List.length msg) in
  let zeros := Z.to_nat ((55 - len) mod 64) in
  msg ++ 0x80 :: repeat 0 zeros ++ be_bytes 8 (8 * len).

(** Words of a block, four big-endian bytes each. *)
Fixpoint words (bs : list Z) : list Z :=
  match bs with
  | a :: b :: c :: d :: r =>
      (((a * 256 + b) * 256 + c) * 256 + d) :: words r
  | _ => []
  end.

Definition word_at (ws : list Z) (i : nat) : Z := nth i ws 0.

(** Message schedule: [n] more words after the [ws] already there. *)
Fixpoint schedule (n : nat) (ws : list Z) : list Z :=
  match n with
  | O => ws
  | S m =>
      let t := List.length ws in
      let w :=
        add32 (add32 (ssig1 (word_at ws (t - 2))) (word_at ws (t - 7)))
              (add32 (ssig0 (word_at ws (t - 15))) (word_at ws (t - 16)))
      in
      schedule m (ws ++ [w])
  end.

Record regs : Type :=
  Regs { ra : Z; rb : Z; rc : Z; rd : Z; re : Z; rf : Z; rg : Z; rh : Z }.

Definition round (r : regs) (kw : Z * Z) : regs :=
  let t1 :=
    add32 (add32 (add32 (add32 (rh r) (bsig1 (re r)))
                        (ch (re r) (rf r) (rg r))) (fst kw)) (snd kw) in
  let t2 := add32 (bsig0 (ra r)) (maj (ra r) (rb r) (rc r)) in
  Regs (add32 t1 t2) (ra r) (rb r) (rc r)
       (add32 (rd r) t1) (re r) (rf r) (rg r).

Definition regs_of (h : list Z) : regs :=
  Regs (word_at h 0) (word_at h 1) (word_at h 2) (word_at h 3)
       (word_at h 4) (word_at h 5) (word_at h 6) (word_at h 7).

Definition compress (h : list Z) (block : list Z) : list Z :=
  let w := schedule 48 (words block) in
  let r := fold_left round (combine round_constants w) (regs_of h) in
  [ add32 (word_at h 0) (ra r); add32 (word_at h 1) (rb r);
    add32 (word_at h 2) (rc r); add32 (word_at h 3) (rd r);
    add32 (word_at h 4) (re r); add32 (word_at h 5) (rf r);
    add32 (word_at h 6) (rg r); add32 (word_at h 7) (rh r) ].

(** The hash of a padded message, 64 bytes at a time; [n] bounds the
    number of blocks. *)
Fixpoint blocks (n : nat) (h : list Z) (bs : list Z) : list Z :=
  match n, bs with
  | S m, _ :: _ => blocks m (compress h (firstn 64 bs)) (skipn 64 bs)
  | _, _ => h
  end.

Definition bytes_of_string (s : string) : list Z :=
  List.map (fun c => Z.of_N (N_of_ascii c)) (list_ascii_of_string s).

(** The 32 bytes of SHA-256 over a list of bytes. *)
Definition digest_bytes (msg : list Z) : list Z :=
  let p := pad msg in
  List.concat (List.map (be_bytes 4) (blocks (List.length p) initial_hash p)).

Definition digest (s : string) : list Z := digest_bytes (bytes_of_string s).

End Sha256.

(* ===================================================================== *)
(** ** Base64 (standard alphabet, padded) *)
(* ===================================================================== *)

Module Base64.
Local Open Scope Z_scope.

Definition alphabet : string :=
  "ABCDEFGHIJKLMNOPQRSTUVWXYZabcdefghijklmnopqrstuvwxyz0123456789+/".

(** The character of a six-bit value. *)
Definition sextet (x : Z) : ascii :=
  match String.get (Z.to_nat (x mod 64)) alphabet with
  | Some c => c
  | None => "A"%char
  end.

Fixpoint encode (bs : list Z) : string :=
  match bs with
  | [] => ""
  | [a] =>
      String (sextet (Z.shiftr a 2))
        (String (sextet (Z.shiftl (Z.land a 3) 4)) "==")
  | [a; b] =>
      String (sextet (Z.shiftr a 2))
        (String (sextet (Z.lor (Z.shiftl (Z.land a 3) 4) (Z.shiftr b 4)))
           (String (sextet (Z.shiftl (Z.land b 15) 2)) "="))
  | a :: b :: c :: r =>
      String (sextet (Z.shiftr a 2))
        (String (sextet (Z.lor (Z.shiftl (Z.land a 3) 4) (Z.shiftr b 4)))
           (String (sextet (Z.lor (Z.shiftl (Z.land b 15) 2) (Z.shiftr c 6)))
              (String (sextet (Z.land c 63)) (encode r))))
  end.

End Base64.

(** [crypto.createHash('sha256').update(s).digest('base64')]. *)
Definition sha256_base64 (s : string) : string :=
  Base64.encode (Sha256.digest s).


(* ===================================================================== *)
(** ** The client: [OAuthClientServer] *)
(* ===================================================================== *)

Module Pkce.

(** *** Constants *)

Definition HOST : string := "localhost".
Definition PORT : N := 5555.
Definition DEFAULT_SCOPE : string := "openid".
Definition STATE_LENGTH : nat := 20.
Definition CODE_VERIFIER_LENGTH : nat := 80.
Definition SCOPE_SEPARATOR : string := " ".

(** *** Randomness

    [Math.random()] is an external source: draw number [i] is the
    fraction [entropy i / 2^53] (reduced into [[0,1)]), and
    [Math.floor(Math.random() * n)] is the integer part of its product
    with [n]. *)

Definition random_index (r : N) (n : nat) : nat :=
  N.to_nat ((r mod 2 ^ 53) * N.of_nat n / 2 ^ 53).

Definition default_chars : string := "abcdefghijklmnopqrstuvwxyz0123456789".

(** The loop of [generateRandomString], reading draws from position
    [pos] on. *)
Fixpoint random_chars (length : nat) (allowedChars : string)
         (entropy : nat -> N) (pos : nat) : string :=
  match length with
  | O => ""
  | S n =>
      Js.charAt allowedChars
        (random_index (entropy pos) (String.length allowedChars))
      ++ random_chars n allowedChars entropy (S pos)
  end.

(** [generateRandomString(length, charSet)] for a character set of
    ASCII characters, as are the two the program passes, where
    [charAt] and [length] count bytes and code units alike. *)
Definition generateRandomString (length : nat) (charSet : option string)
           (entropy : nat -> N) (pos : nat) : string :=
  let allowedChars :=
    if Js.truthy charSet then Js.show charSet else default_chars in
  random_chars length allowedChars entropy pos.

(** The character set given, if one is, is ASCII. *)
Definition ascii_set (charSet : option string) : bool :=
  match charSet with
  | Some s => Js.is_ascii s
  | None => true
  end.

(** *** The code challenge

    [crypto.createHash('sha256').update(v).digest('base64')
       .replace(/\//g, '_').replace(/\+/g, '-').replace(/=*$/, '')]. *)
Definition codeChallenge (codeVerifier : string) : string :=
  Js.replace_eq_tail
    (Js.replace_all "+" "-"
       (Js.replace_all "/" "_" (sha256_base64 codeVerifier))).

(** *** Data *)

Record config : Type := Config {
  clientId : string;
  clientSecret : option string;
  authUri : string;
  tokenUri : string;
  revokeUri : string;
  logoutUri : string;
  successUri : string
}.

(** The fields of a token-endpoint JSON body the client reads, each a
    string or absent, and the members it passes through unread. *)
Record token_response : Type := TokenResponse {
  id_token : option string;
  refresh_token : option string;
  error : option string;
  error_description : option string;
  other_members : list (string * string)
}.

(** The argument of [fetch]: always a form-encoded POST. *)
Record fetch_request : Type := FetchRequest {
  fetch_url : string;
  fetch_method : string;
  fetch_content_type : string;
  fetch_body : string
}.

(** What [response.json()] gives: the parsed body, or a parse error. *)
Inductive json_body : Type :=
| Json (j : token_response)
| BadJson (message : string).

(** What [await fetch(...)] gives: a response, or a thrown error. *)
Inductive fetch_result : Type :=
| Response (status : N) (body : json_body)
| NetworkError (message : string).

(** A promise of [authorize]: settled at most once. *)
Inductive promise : Type :=
| Pending
| Resolved (value : token_response)
| Rejected (message : string).

(** A layer of the express application's stack.  The [/callback]
    handler closes over the [resolve] and [reject] of the promise of
    the [authorize] call that registered it. *)
Inductive route : Type :=
| AuthRoute
| CallbackRoute (flow : nat).

(** The fields of the client object. *)
Record client : Type := Client {
  cfg : config;
  scopes : string;
  server : option nat;
  serverAddress : option string;
  sessionStore : gmap string string;
  app : list route
}.

(** Effects visible outside the client. *)
Inductive event : Type :=
| Listen (handle : nat) (port : N)
| ServerClose (handle : nat)
| OpenBrowser (url : string)
| Fetch (request : fetch_request).

(** The client with what surrounds it: the promises handed out by
    [authorize] (indexed by flow), the random source and how much of it
    was read, the listener handles created so far, the flows of the
    [/callback] handlers suspended at their [await], and the effects
    performed so far. *)
Record world : Type := World {
  this : client;
  promises : list promise;
  entropy : nat -> N;
  drawn : nat;
  handles : nat;
  suspended : list nat;
  trace : list event
}.

(** An incoming [GET] request, as the handlers read it:
    [req.cookies['session_state']], [req.query.code], [req.query.state],
    each a string or [undefined].  (A repeated parameter or a JSON cookie
    parses to an array or an object; such a value is never [===] to the
    other one, so the handler treats it like a state that does not
    match.) *)
Record http_request : Type := HttpRequest {
  cookie_session_state : option string;
  query_code : option string;
  query_state : option string
}.

(** What a handler sends back. *)
Record http_response : Type := HttpResponse {
  status : N;
  location : option string;
  set_cookie : option (string * string);
  body : string
}.

Definition redirect (code : N) (url : string) (ck : option (string * string))
  : http_response :=
  HttpResponse code (Some url) ck "".

Definition send (code : N) (text : string) : http_response :=
  HttpResponse code None None text.

(** *** Field updates *)

Definition with_client (f : client -> client) (w : world) : world :=
  World (f (this w)) (promises w) (entropy w) (drawn w) (handles w)
        (suspended w) (trace w).

Definition set_scopes (s : string) (c : client) : client :=
  Client (cfg c) s (server c) (serverAddress c) (sessionStore c) (app c).
Definition set_server (h : option nat) (c : client) : client :=
  Client (cfg c) (scopes c) h (serverAddress c) (sessionStore c) (app c).
Definition set_serverAddress (a : option string) (c : client) : client :=
  Client (cfg c) (scopes c) (server c) a (sessionStore c) (app c).
Definition set_sessionStore (m : gmap string string) (c : client) : client :=
  Client (cfg c) (scopes c) (server c) (serverAddress c) m (app c).
Definition set_app (a : list route) (c : client) : client :=
  Client (cfg c) (scopes c) (server c) (serverAddress c) (sessionStore c) a.

Definition emit (e : event) (w : world) : world :=
  World (this w) (promises w) (entropy w) (drawn w) (handles w)
        (suspended w) (trace w ++ [e]).

Definition set_promises (ps : list promise) (w : world) : world :=
  World (this w) ps (entropy w) (drawn w) (handles w)
        (suspended w) (trace w).

Definition advance (n : nat) (w : world) : world :=
  World (this w) (promises w) (entropy w) (drawn w + n) (handles w)
        (suspended w) (trace w).

Definition new_handle (w : world) : world :=
  World (this w) (promises w) (entropy w) (drawn w) (S (handles w))
        (suspended w) (trace w).

Definition set_suspended (l : list nat) (w : world) : world :=
  World (this w) (promises w) (entropy w) (drawn w) (handles w)
        l (trace w).

(** [resolve(v)] and [reject(e)] of flow [flow]: they settle a pending
    promise and do nothing to a settled one. *)
Definition settle (flow : nat) (p : promise) (w : world) : world :=
  match promises w !! flow with
  | Some Pending => set_promises (<[flow := p]> (promises w)) w
  | _ => w
  end.

(** [new Error(m).message]: the empty string when [m] is [undefined]. *)
Definition error_message (m : option string) : string :=
  match m with
  | Some s => s
  | None => ""
  end.

(** *** [constructor] *)

Definition new_client (c : config) : client :=
  Client c DEFAULT_SCOPE None None ∅ [].

Definition new_world (c : config) (e : nat -> N) : world :=
  World (new_client c) [] e 0 0 [] [].

(** *** [close] *)

Definition close (w : world) : world :=
  match server (this w) with
  | Some h => emit (ServerClose h) (with_client (set_server None) w)
  | None => w
  end.

(** *** [authorize] and the callback of [listen] *)

(** What [authorize] returns: a promise rejected on the spot, or the
    promise of a new flow. *)
Inductive authorize_result : Type :=
| RejectedNow (message : string)
| Flow (id : nat).

(** [init(resolve, reject)]: two more layers on the application's
    stack; the [/callback] one holds the callbacks of flow [flow]. *)
Definition init (flow : nat) (c : client) : client :=
  set_app (app c ++ [AuthRoute; CallbackRoute flow]) c.

Definition authorize (scopes' : option string) (port : option N) (w : world)
  : world * authorize_result :=
  match server (this w) with
  | Some _ =>
      (w, RejectedNow
            "Pending authorization flow. Close existing session to rerun.")
  | None =>
      let port := match port with Some p => p | None => PORT end in
      let recorded :=
        if Js.truthy scopes'
        then Js.show scopes' ++ SCOPE_SEPARATOR ++ DEFAULT_SCOPE
        else DEFAULT_SCOPE in
      let flow := List.length (promises w) in
      let h := handles w in
      let w1 := with_client (set_scopes recorded) w in
      let w2 := set_promises (promises w1 ++ [Pending]) w1 in
      let w3 := with_client (init flow) w2 in
      let w4 := new_handle (with_client (set_server (Some h)) w3) in
      (emit (Listen h port) w4, Flow flow)
  end.

(** The callback passed to [listen], run once the listener is bound to
    [port].  With [this.server] already null, [this.server.address()]
    throws and nothing is changed. *)
Definition listening (port : N) (w : world) : world :=
  match server (this w) with
  | Some _ =>
      let address := "http://" ++ HOST ++ ":" ++ Js.number_to_string port in
      emit (OpenBrowser (address ++ "/auth"))
           (with_client (set_serverAddress (Some address)) w)
  | None => w
  end.

(** *** The [/auth] handler *)

Definition alphabet : string := "abcdefghijklmnopqrstuvwxyz".

Definition verifier_chars : string :=
  Js.toLowerCase alphabet ++ Js.toUpperCase alphabet
  ++ "0123456789" ++ "-._~".

(** The optional [&client_secret=...] of a form body. *)
Definition secret_field (c : config) : string :=
  if Js.truthy (clientSecret c)
  then "&client_secret=" ++ Js.encodeURIComponent (Js.show (clientSecret c))
  else "".

Definition authorization_url (c : client) (challenge state : string)
  : string :=
  authUri (cfg c)
  ++ "?client_id=" ++ Js.encodeURIComponent (clientId (cfg c))
  ++ "&redirect_uri="
  ++ Js.encodeURIComponent (Js.show_nullable (serverAddress c) ++ "/callback")
  ++ "&response_type=code"
  ++ "&scope=" ++ Js.encodeURIComponent (scopes c)
  ++ "&code_challenge=" ++ Js.encodeURIComponent challenge
  ++ "&code_challenge_method=S256"
  ++ "&prompt=login"
  ++ "&state=" ++ Js.encodeURIComponent state.

(** The verifier and the state the next [/auth] hit will draw. *)
Definition next_verifier (w : world) : string :=
  generateRandomString CODE_VERIFIER_LENGTH (Some verifier_chars)
                       (entropy w) (drawn w).
Definition next_state (w : world) : string :=
  generateRandomString STATE_LENGTH None
                       (entropy w) (drawn w + CODE_VERIFIER_LENGTH).

Definition auth_handler (w : world) : world * http_response :=
  let codeVerifier := next_verifier w in
  let challenge := codeChallenge codeVerifier in
  let state := next_state w in
  let store := Js.set (sessionStore (this w)) state codeVerifier in
  let w1 := advance (CODE_VERIFIER_LENGTH + STATE_LENGTH)
                    (with_client (set_sessionStore store) w) in
  (w1, redirect 302 (authorization_url (this w) challenge state)
                (Some ("session_state", state))).

(** *** The [/callback] handler *)

Definition invalid_idp_response : string := "Invalid IdP response".

Definition form_urlencoded : string := "application/x-www-form-urlencoded".

Definition exchange_request (c : client) (code : string)
           (codeVerifier : Js.prop_value) : fetch_request :=
  FetchRequest (tokenUri (cfg c)) "POST" form_urlencoded
    ("grant_type=authorization_code"
     ++ "&client_id=" ++ Js.encodeURIComponent (clientId (cfg c))
     ++ secret_field (cfg c)
     ++ "&code=" ++ Js.encodeURIComponent code
     ++ "&code_verifier="
     ++ Js.encodeURIComponent (Js.to_string codeVerifier)
     ++ "&redirect_uri="
     ++ Js.encodeURIComponent
          (Js.show_nullable (serverAddress c) ++ "/callback")).

(** The condition of the handler's [if]. *)
Definition callback_valid (req : http_request) (c : client) : bool :=
  Js.truthy (query_state req)
  && Js.truthy (query_code req)
  && Js.strict_eq (cookie_session_state req) (query_state req)
  && Js.defined (Js.get (sessionStore c) (Js.show (query_state req))).

(** A handler either ran to its end, or is suspended at
    [await fetch(...)] after sending [request]. *)
Inductive handler_step : Type :=
| Responded (w : world) (res : http_response)
| Awaiting (w : world) (request : fetch_request).

(** The handler up to its [await], or to its end in the [else]
    branch. *)
Definition callback_begin (flow : nat) (req : http_request) (w : world)
  : handler_step :=
  if callback_valid req (this w) then
    let actualState := Js.show (query_state req) in
    let codeVerifier := Js.get (sessionStore (this w)) actualState in
    let w1 :=
      with_client
        (set_sessionStore (Js.delete (sessionStore (this w)) actualState))
        w in
    let request :=
      exchange_request (this w1) (Js.show (query_code req)) codeVerifier in
    Awaiting (emit (Fetch request) w1) request
  else
    Responded
      (close (settle flow (Rejected invalid_idp_response) w))
      (send 400 invalid_idp_response).

(** The handler from the point where [fetch] settles, in the world as
    it is by then. *)
Definition callback_resume (flow : nat) (r : fetch_result) (w : world)
  : world * http_response :=
  match r with
  | Response st (Json json) =>
      if N.eqb st 200 then
        (close (settle flow (Resolved json) w),
         redirect 302 (successUri (cfg (this w))) None)
      else
        (close (settle flow (Rejected (error_message (error json))) w),
         send st (error_message (error json)))
  | Response _ (BadJson message)
  | NetworkError message =>
      (close (settle flow (Rejected message) w), send 500 message)
  end.

(** *** Routing

    [app.get] adds a layer at the end of the stack on every call, and a
    request is handled by the first layer whose path matches; neither
    handler passes the request on. *)

Fixpoint callback_route (stack : list route) : option nat :=
  match stack with
  | [] => None
  | CallbackRoute flow :: _ => Some flow
  | AuthRoute :: rest => callback_route rest
  end.

Definition has_auth_route (stack : list route) : bool :=
  existsb (fun r => match r with AuthRoute => true | _ => false end) stack.

Definition not_found (path : string) : http_response :=
  send 404 ("Cannot GET " ++ path).

Definition get_auth (w : world) : world * http_response :=
  if has_auth_route (app (this w)) then auth_handler w
  else (w, not_found "/auth").

Definition get_callback (req : http_request) (w : world) : handler_step :=
  match callback_route (app (this w)) with
  | Some flow => callback_begin flow req w
  | None => Responded w (not_found "/callback")
  end.

(** *** Token-endpoint operations

    [refresh], [revoke] and [revokeAndGetLogoutUrl] read the
    configuration only.  An [async] function is a tree of the requests
    it awaits: it returns, throws, or sends a request and goes on with
    what [fetch] gives. *)

Inductive async (A : Type) : Type :=
| Return (a : A)
| Throw (message : string)
| Await (request : fetch_request) (k : fetch_result -> async A).

Arguments Return {A} a.
Arguments Throw {A} message.
Arguments Await {A} request k.

(** [const x = await m; f x]. *)
Fixpoint bind {A B : Type} (m : async A) (f : A -> async B) : async B :=
  match m with
  | Return a => f a
  | Throw e => Throw e
  | Await r k => Await r (fun x => bind (k x) f)
  end.

(** How the promise of an [async] function ends. *)
Inductive outcome (A : Type) : Type :=
| Fulfilled (a : A)
| Failed (message : string).

Arguments Fulfilled {A} a.
Arguments Failed {A} message.

(** The network: what a request gets, given the requests sent before
    it. *)
Definition network : Type :=
  list fetch_request -> fetch_request -> fetch_result.

(** Runs an [async] function against a network; [sent] are the
    requests sent so far, oldest first. *)
Fixpoint run {A : Type} (net : network) (sent : list fetch_request)
         (m : async A) : list fetch_request * outcome A :=
  match m with
  | Return a => (sent, Fulfilled a)
  | Throw e => (sent, Failed e)
  | Await r k => run net (sent ++ [r]) (k (net sent r))
  end.

(** [json.error_description || json.error || 'Unknown Error']. *)
Definition failure_message (json : token_response) : string :=
  Js.show (Js.or (Js.or (error_description json) (error json))
                 (Some "Unknown Error")).

Definition revoke_request (c : config) (token tokenType : string)
  : fetch_request :=
  FetchRequest (revokeUri c) "POST" form_urlencoded
    ("token=" ++ Js.encodeURIComponent token
     ++ "&token_type_hint=" ++ Js.encodeURIComponent tokenType
     ++ "&client_id=" ++ Js.encodeURIComponent (clientId c)
     ++ secret_field c).

Definition revoke (c : config) (token tokenType : string) : async unit :=
  Await (revoke_request c token tokenType) (fun res =>
    match res with
    | NetworkError e => Throw e
    | Response st b =>
        if negb (N.eqb st 200) then
          match b with
          | BadJson e => Throw e
          | Json json => Throw (failure_message json)
          end
        else Return tt
    end).

Definition refresh_request (c : config) (refreshToken : string)
  : fetch_request :=
  FetchRequest (tokenUri c) "POST" form_urlencoded
    ("grant_type=refresh_token"
     ++ "&refresh_token=" ++ Js.encodeURIComponent refreshToken
     ++ "&client_id=" ++ Js.encodeURIComponent (clientId c)
     ++ secret_field c).

Definition refresh (c : config) (refreshToken : string)
  : async token_response :=
  Await (refresh_request c refreshToken) (fun res =>
    match res with
    | NetworkError e => Throw e
    | Response st b =>
        match b with
        | BadJson e => Throw e
        | Json json =>
            if negb (N.eqb st 200) then Throw (failure_message json)
            else Return json
        end
    end).

Definition revokeAndGetLogoutUrl (c : config) (refreshToken : string)
  : async string :=
  bind (refresh c refreshToken) (fun resp =>
  bind (revoke c refreshToken "refresh_token") (fun _ =>
  Return (logoutUri c ++ "?id_token_hint=" ++ Js.show (id_token resp)))).

(** *** Runs of the client

    What can happen to a client, one step at a time: calls of its
    methods, the listener reporting that it is bound, requests reaching
    the two routes, and a suspended [/callback] handler resuming with
    the result of its [fetch].  Requests are not tied to the [server]
    handle: [server.close()] stops new connections only, and a
    connection kept alive can still deliver one. *)

Inductive op : Type :=
| Authorize (scopes' : option string) (port : option N)
| Listening (port : N)
| Close
| GetAuth
| GetCallback (req : http_request)
| FetchDone (i : nat) (r : fetch_result).

(** Removes the element at index [i]. *)
Fixpoint remove_at {A : Type} (i : nat) (l : list A) : list A :=
  match l, i with
  | [], _ => []
  | _ :: r, O => r
  | x :: r, S j => x :: remove_at j r
  end.

Definition exec (o : op) (w : world) : world :=
  match o with
  | Authorize sc port => fst (authorize sc port w)
  | Listening port => listening port w
  | Close => close w
  | GetAuth => fst (get_auth w)
  | GetCallback req =>
      match get_callback req w with
      | Responded w' _ => w'
      | Awaiting w' _ =>
          match callback_route (app (this w)) with
          | Some flow => set_suspended (suspended w' ++ [flow]) w'
          | None => w'
          end
      end
  | FetchDone i r =>
      match suspended w !! i with
      | Some flow =>
          fst (callback_resume flow r
                 (set_suspended (remove_at i (suspended w)) w))
      | None => w
      end
  end.

(** Steps run oldest first. *)
Definition exec_all (ops : list op) (w : world) : world :=
  fold_left (fun w o => exec o w) ops w.

(** The worlds a freshly constructed client can get to. *)
Definition reachable (w : world) : Prop :=
  exists c e ops, w = exec_all ops (new_world c e).

(** A [/callback] request handled in one go: [net] answers the token
    request as soon as it is sent. *)
Definition handle_callback (net : fetch_request -> fetch_result)
           (req : http_request) (w : world) : world * http_response :=
  match callback_route (app (this w)) with
  | Some flow =>
      match callback_begin flow req w with
      | Responded w' res => (w', res)
      | Awaiting w' request => callback_resume flow (net request) w'
      end
  | None => (w, not_found "/callback")
  end.

(** The requests sent to the network so far. *)
Fixpoint fetches (t : list event) : list fetch_request :=
  match t with
  | [] => []
  | Fetch r :: rest => r :: fetches rest
  | _ :: rest => fetches rest
  end.

(** *** Invariants of a run *)

(** Every character of [s] is one of [chars]. *)
Fixpoint chars_in (chars s : string) : bool :=
  match s with
  | EmptyString => true
  | String c r => Js.occurs c chars && chars_in chars r
  end.

(** The shape of a state issued by [/auth]: [STATE_LENGTH] characters
    of the default character set. *)
Definition is_state_token (k : string) : bool :=
  Nat.eqb (String.length k) STATE_LENGTH && chars_in default_chars k.

(** The application's stack after [authorize] was accepted for the
    flows [flows], in that order. *)
Definition stack_of (flows : list nat) : list route :=
  flat_map (fun f => [AuthRoute; CallbackRoute f]) flows.

Record invariant (w : world) : Prop := Invariant {
  inv_keys :
    forall k v, sessionStore (this w) !! k = Some v ->
                is_state_token k = true;
  inv_stack : exists flows, app (this w) = stack_of flows;
  inv_store : app (this w) = [] -> sessionStore (this w) = ∅
}.

(** The steps that handle a [/callback] request, in part or in whole. *)
Definition is_callback_op (o : op) : bool :=
  match o with
  | GetCallback _ | FetchDone _ _ => true
  | _ => false
  end.

(** *** Observations used in the statements *)

(** A query parameter of the URL a response redirects to. *)
Definition redirect_param (name : string) (res : http_response)
  : option string :=
  match location res with
  | Some url => Js.query_param name url
  | None => None
  end.

(** A [/callback] request is turned down in [w]: the answer is 400 with
    the fixed message, and no request goes to the network. *)
Definition turned_down (req : http_request) (w : world) : Prop :=
  exists w', get_callback req w = Responded w' (send 400 invalid_idp_response)
             /\ fetches (trace w') = fetches (trace w).

End Pkce.

(* ===================================================================== *)
(** ** A concrete deployment, for the examples *)
(* ===================================================================== *)

Module Demo.
Import Pkce.

Definition config0 : config :=
  Config "desktop-app" None
         "https://idp.example/authorize" "https://idp.example/token"
         "https://idp.example/revoke" "https://idp.example/logout"
         "https://app.example/signed-in".

(** A fixed sequence of draws. *)
Definition entropy0 (i : nat) : N := (N.of_nat i * 123456789012345 + 97)%N.

Definition fresh : world := new_world config0 entropy0.

(** [authorize('offline_access email')] accepted and the listener bound
    to the default port. *)
Definition listening0 : world :=
  exec_all [Authorize (Some "offline_access email") None; Listening 5555]
           fresh.

(** The browser has been through [/auth]. *)
Definition redirected0 : world :=
  exec_all [Authorize (Some "offline_access email") None; Listening 5555;
            GetAuth]
           fresh.

(** The state and the verifier that [/auth] hit issued. *)
Definition state0 : string := next_state listening0.
Definition verifier0 : string := next_verifier listening0.

(** The identity provider's redirect back, with the cookie of [/auth]. *)
Definition callback0 : http_request :=
  HttpRequest (Some state0) (Some "auth-code") (Some state0).

(** A request nobody issued a state for, naming a property of
    [Object.prototype]. *)
Definition forged0 : http_request :=
  HttpRequest (Some "constructor") (Some "auth-code") (Some "constructor").

Definition tokens0 : token_response :=
  TokenResponse (Some "X") (Some "Y") None None [].

(** A token endpoint turning a grant down, with both error members. *)
Definition denied0 : token_response :=
  TokenResponse None None (Some "invalid_grant")
                (Some "The authorization code has expired") [].

(** A stub network: the token endpoint answers 200 with [id_token] "Z",
    every other endpoint 200 with an empty object. *)
Definition stub_ok : network :=
  fun _ r =>
    if String.eqb (fetch_url r) (tokenUri config0)
    then Response 200 (Json (TokenResponse (Some "Z") None None None []))
    else Response 200 (Json (TokenResponse None None None None [])).

(** A stub token endpoint answering 400 with [{error: "invalid_grant"}]. *)
Definition stub_invalid_grant : network :=
  fun _ _ =>
    Response 400 (Json (TokenResponse None None (Some "invalid_grant") None [])).

End Demo.

(* ===================================================================== *)
(** ** The challenge as the specification words it *)
(* ===================================================================== *)

Module Spec.

(** Drops the longest prefix of [l] whose elements satisfy [p]. *)
Fixpoint drop_while {A : Type} (p : A -> bool) (l : list A) : list A :=
  match l with
  | [] => []
  | x :: r => if p x then drop_while p r else l
  end.

Definition is_pad (c : ascii) : bool := Ascii.eqb c "=".

(** Strips trailing [=] padding. *)
Definition strip_padding (s : string) : string :=
  string_of_list_ascii
    (rev (drop_while is_pad (rev (list_ascii_of_string s)))).

(** SHA-256 over the bytes of the verifier, base64, then [+] to [-],
    [/] to [_], and the padding stripped. *)
Definition challenge (verifier : string) : string :=
  strip_padding
    (Js.replace_all "/" "_"
       (Js.replace_all "+" "-" (sha256_base64 verifier))).

End Spec.

(* ===================================================================== *)
(** ** Reading form-encoded bodies and traces *)
(* ===================================================================== *)

Module Form.

(** One [name=value] pair, the value percent-encoded. *)
Definition pair (kv : string * string) : string :=
  fst kv ++ String "=" (Js.encodeURIComponent (snd kv)).

(** Pairs joined by [&]. *)
Definition render (kvs : list (string * string)) : string :=
  Js.join "&" (List.map pair kvs).

(** The value of the first field named [name] of a form-encoded body,
    percent-decoded. *)
Definition field (name body : string) : option string :=
  match Js.first_pair name (Js.split "&" body) with
  | Some v => Js.decodeURIComponent v
  | None => None
  end.

(** The names of the fields of a form-encoded body, in order. *)
Definition names (body : string) : list string :=
  List.map (Js.before "=") (Js.split "&" body).

(** The first value bound to [name] in a list of pairs. *)
Fixpoint assoc (name : string) (kvs : list (string * string))
  : option string :=
  match kvs with
  | [] => None
  | (k, v) :: rest => if String.eqb k name then Some v else assoc name rest
  end.

(** A field name free of the separators of a query. *)
Definition key_ok (k : string) : bool :=
  negb (Js.occurs "=" k) && negb (Js.occurs "&" k) && negb (Js.occurs "#" k).

(** The client secret as a pair, when one is configured. *)
Definition secret_pairs (c : Pkce.config) : list (string * string) :=
  if Js.truthy (Pkce.clientSecret c)
  then [("client_secret", Js.show (Pkce.clientSecret c))]
  else [].

(** The characters RFC 7636 allows in a code verifier. *)
Definition rfc7636_chars : string :=
  "ABCDEFGHIJKLMNOPQRSTUVWXYZabcdefghijklmnopqrstuvwxyz0123456789-._~".

(** What the two replacements of the challenge make of a character. *)
Definition url_char (c : ascii) : ascii :=
  if Ascii.eqb (if Ascii.eqb c "/" then "_"%char else c) "+"
  then "-"%char
  else if Ascii.eqb c "/" then "_"%char else c.

(** The characters of URL-safe base64. *)
Definition base64url_chars : string :=
  "ABCDEFGHIJKLMNOPQRSTUVWXYZabcdefghijklmnopqrstuvwxyz0123456789-_".

End Form.

Module Listeners.
Import Pkce.

(** The listeners opened and not closed, after one more event. *)
Definition after_event (open : list nat) (e : event) : list nat :=
  match e with
  | Listen h _ => (open ++ [h])%list
  | ServerClose h => List.filter (fun x => negb (Nat.eqb x h)) open
  | _ => open
  end.

(** The listeners a trace leaves open. *)
Definition open_listeners (t : list event) : list nat :=
  fold_left after_event t [].

(** The handle in [this.server], as a list. *)
Definition held (c : client) : list nat :=
  match server c with
  | Some h => [h]
  | None => []
  end.

End Listeners.

Module Runs.
Import Pkce.

(** Every [/callback] request goes to the handler of flow 0: the stack
    is empty and no promise was handed out, or its first [/callback]
    layer is that of flow 0; the suspended handlers are of flow 0; the
    promises of the other flows are pending. *)
Record first_flow_only (w : world) : Prop := FirstFlowOnly {
  ffo_route :
    match callback_route (app (this w)) with
    | Some f => f = 0%nat
    | None => promises w = []
    end;
  ffo_suspended : Forall (fun f => f = 0%nat) (suspended w);
  ffo_pending :
    forall f p, f <> 0%nat -> promises w !! f = Some p -> p = Pending
}.

(** A login carried through: the flow started by [sc] and [port], the
    listener bound to [bound], the browser through [/auth], the
    provider's redirect back with the issued state and [code], and the
    token endpoint's answer [r]. *)
Definition redirect_back (w : world) (code : string) : http_request :=
  HttpRequest (Some (next_state w)) (Some code) (Some (next_state w)).

Definition login (sc : option string) (port : option N) (bound : N)
           (code : string) (r : fetch_result) (w : world) : world :=
  let bound_world := exec_all [Authorize sc port; Listening bound] w in
  exec_all [GetAuth; GetCallback (redirect_back bound_world code);
            FetchDone 0 r]
           bound_world.

(** The promise a settled exchange leaves. *)
Definition exchange_outcome (r : fetch_result) : promise :=
  match r with
  | Response st (Json json) =>
      if N.eqb st 200 then Resolved json
      else Rejected (error_message (error json))
  | Response _ (BadJson message) | NetworkError message => Rejected message
  end.

End Runs.

Module Scenario.
Import Pkce.

(** A first flow aborted with [close], then a second login carried
    through on the same client. *)
Definition second_login : world :=
  Runs.login None None 5555 "auth-code" (Response 200 (Json Demo.tokens0))
             (exec_all [Authorize None None; Listening 5555; Close]
                       Demo.fresh).

End Scenario.

(* ===================================================================== *)
(** ** The metadata server ([login/index.js]) *)
(* ===================================================================== *)

Module Metadata.
Import Pkce.

Definition HOST : string := "localhost".
Definition PORT : N := 5000.
Definition APP_ID : string := "WorkforcePoolTesting".

(** *** The credential store

    [keytar] keeps one password per service and account.  Its calls are
    taken to succeed. *)

Definition getPassword (kc : gmap (string * string) string)
           (service account : string) : option string :=
  kc !! (service, account).

Definition setPassword (kc : gmap (string * string) string)
           (service account password : string)
  : gmap (string * string) string :=
  <[(service, account) := password]> kc.

Definition deletePassword (kc : gmap (string * string) string)
           (service account : string) : gmap (string * string) string :=
  base.delete (service, account) kc.

(** *** Replies *)

(** What a handler of the metadata server sends: text, a JSON object
    with string members, a JSON object with one member that is an array
    of strings, or a redirect. *)
Inductive payload : Type :=
| Text (text : string)
| JsonObject (members : list (string * string))
| JsonStrings (name : string) (items : list string)
| RedirectTo (url : string).

Record reply : Type := Reply {
  reply_status : N;
  reply_payload : payload
}.

(** [JSON.stringify] leaves out the members that are [undefined]. *)
Fixpoint members (l : list (string * option string))
  : list (string * string) :=
  match l with
  | [] => []
  | (k, Some v) :: rest => (k, v) :: members rest
  | (_, None) :: rest => members rest
  end.

(** [res.send(v)]: no body for [undefined]. *)
Definition sent_text (v : option string) : string :=
  match v with
  | Some s => s
  | None => ""
  end.

Definition no_session : string := "No session detected. Please login first.".

(** What a handler did: the credential store it leaves, the requests it
    sent, its reply, and whether it ended the process. *)
Record handled : Type := Handled {
  keychain : gmap (string * string) string;
  requests : list fetch_request;
  answer : reply;
  exited : bool
}.

(** The part shared by [/token] and [/idptoken]; [success] is the reply
    built from the refreshed tokens. *)
Definition refresh_session (success : token_response -> reply)
           (c : config) (net : network)
           (kc : gmap (string * string) string) : handled :=
  let refreshToken := getPassword kc APP_ID "RefreshToken" in
  if Js.truthy refreshToken then
    match run net [] (refresh c (Js.show refreshToken)) with
    | (sent, Fulfilled resp) =>
        let kc' :=
          if Js.truthy (refresh_token resp)
          then setPassword kc APP_ID "RefreshToken"
                           (Js.show (refresh_token resp))
          else kc in
        Handled kc' sent (success resp) false
    | (sent, Failed message) =>
        Handled kc sent (Reply 400 (JsonObject [("error", message)])) false
    end
  else
    Handled kc [] (Reply 400 (JsonObject [("error", no_session)])) false.

(** [GET /token]. *)
Definition token_handler : config -> network ->
                           gmap (string * string) string -> handled :=
  refresh_session (fun resp => Reply 200 (Text (sent_text (id_token resp)))).

(** [GET /idptoken]. *)
Definition idptoken_handler : config -> network ->
                              gmap (string * string) string -> handled :=
  refresh_session
    (fun resp =>
       Reply 200 (JsonObject (members [("id_token", id_token resp)]))).

(** [GET /logout].  The stored token, or [null], goes to
    [revokeAndGetLogoutUrl], where [encodeURIComponent] renders [null] as
    the text [null]. *)
Definition logout_handler (c : config) (net : network)
           (kc : gmap (string * string) string) : handled :=
  let refreshToken := getPassword kc APP_ID "RefreshToken" in
  let kc' := deletePassword kc APP_ID "RefreshToken" in
  match run net [] (revokeAndGetLogoutUrl c (Js.show_nullable refreshToken))
  with
  | (sent, Fulfilled url) => Handled kc' sent (Reply 302 (RedirectTo url)) true
  | (sent, Failed message) => Handled kc' sent (Reply 500 (Text message)) false
  end.

(** *** [main] *)

(** [main] up to its [await client.authorize(...)]: the client is
    constructed, the stored token deleted, the flow started. *)
Definition main_begin (c : config) (e : nat -> N)
           (kc : gmap (string * string) string)
  : gmap (string * string) string * world * authorize_result :=
  let kc' := deletePassword kc APP_ID "RefreshToken" in
  let started := authorize (Some "offline_access email") None (new_world c e) in
  (kc', fst started, snd started).

(** [main] from the point where the promise of [authorize] is settled:
    the credential store it leaves, and whether the metadata server is
    started.  Nothing happens while the promise is pending. *)
Definition main_end (p : promise) (kc : gmap (string * string) string)
  : option (gmap (string * string) string * bool) :=
  match p with
  | Pending => None
  | Resolved jsonResponse =>
      Some (if Js.truthy (refresh_token jsonResponse)
            then setPassword kc APP_ID "RefreshToken"
                             (Js.show (refresh_token jsonResponse))
            else kc,
            true)
  | Rejected _ => Some (kc, false)
  end.

End Metadata.

(* ===================================================================== *)
(** ** The token-exchange endpoints of the metadata server *)
(* ===================================================================== *)

Module Gateway.
Import Pkce Metadata.

(** What an [axios] call gives: the data the code reads from the
    response, or a thrown error. *)
Inductive upstream (A : Type) : Type :=
| Answered (data : A)
| Thrown (message : string).

Arguments Answered {A} data.
Arguments Thrown {A} message.

(** *** The hashed handles of the later version of the server *)

(** Lower-case hexadecimal digits. *)
Definition hex_chars : string := "0123456789abcdef".

Definition hex_lower (n : nat) : ascii :=
  match String.get n hex_chars with
  | Some c => c
  | None => "0"%char
  end.

Fixpoint hex_of_bytes (bs : list Z) : string :=
  match bs with
  | [] => ""
  | b :: r =>
      String (hex_lower (Z.to_nat (b / 16)))
        (String (hex_lower (Z.to_nat (b mod 16))) (hex_of_bytes r))
  end.

(** [crypto.createHash("sha256").update(s).digest("hex")]. *)
Definition sha256_hex (s : string) : string :=
  hex_of_bytes (Sha256.digest s).

(** The message of the [TypeError] that [update(undefined)] throws. *)
Definition update_type_error : string :=
  let quote := String (Ascii.ascii_of_nat 34) "" in
  "The " ++ quote ++ "data" ++ quote ++
  " argument must be of type string or an instance of Buffer, " ++
  "TypedArray, or DataView. Received undefined".

(** What [/gcpaccesstoken] did: the token map it leaves, the subject
    token it sent to the exchange (if it sent one), its reply. *)
Record exchanged : Type := Exchanged {
  map_after : gmap string string;
  subject_sent : option string;
  exchange_reply : reply
}.

(** [GET /gcpaccesstoken]; [sts] answers the exchange of a subject token
    with [response.data.access_token], a string or [undefined]. *)
Definition gcpaccesstoken (inputToken : option string)
           (sts : string -> upstream (option string))
           (tokenMap : gmap string string) : exchanged :=
  if negb (Js.truthy inputToken) then
    Exchanged tokenMap None
      (Reply 400 (JsonObject [("error", "Missing input_token parameter.")]))
  else
    let subjectToken := Js.show inputToken in
    match sts subjectToken with
    | Answered (Some accessToken) =>
        let hashedToken := sha256_hex accessToken in
        Exchanged (<[hashedToken := accessToken]> tokenMap)
                  (Some subjectToken)
                  (Reply 200 (JsonObject [("access_token", hashedToken)]))
    | Answered None =>
        Exchanged tokenMap (Some subjectToken)
                  (Reply 400 (JsonObject [("error", update_type_error)]))
    | Thrown message =>
        Exchanged tokenMap (Some subjectToken)
                  (Reply 400 (JsonObject [("error", message)]))
    end.

(** The token map after a series of [/gcpaccesstoken] requests, each
    with its [input_token] and what the exchange answers to it. *)
Definition exchanges
           (reqs : list (option string * (string -> upstream (option string))))
           (tokenMap : gmap string string) : gmap string string :=
  fold_left (fun m q => map_after (gcpaccesstoken (fst q) (snd q) m))
            reqs tokenMap.

(** Every key of the token map is the SHA-256 of its value, in
    hexadecimal. *)
Definition keyed (tokenMap : gmap string string) : Prop :=
  forall h t, tokenMap !! h = Some t -> h = sha256_hex t.

(** Every value of the token map was answered to one of [reqs]. *)
Definition issued
           (reqs : list (option string * (string -> upstream (option string))))
           (tokenMap : gmap string string) : Prop :=
  forall h t, tokenMap !! h = Some t ->
    exists q, In q reqs /\ snd q (Js.show (fst q)) = Answered (Some t).

(** What [/gcpprojects] did: the [Authorization] header it sent upstream
    (if it made the call), its reply. *)
Record listed : Type := Listed {
  authorization_sent : option string;
  list_reply : reply
}.

(** [POST /gcpprojects] of the later version: [hashedToken] is
    [req.body?.access_token]; the reply to a successful call is a fixed
    list of projects. *)
Definition gcpprojects (hashedToken : option string)
           (crm : string -> upstream unit)
           (tokenMap : gmap string string) : listed :=
  if negb (Js.truthy hashedToken) then
    Listed None (Reply 400 (JsonObject [("error", "Missing access token.")]))
  else
    let realToken := tokenMap !! Js.show hashedToken in
    if negb (Js.truthy realToken) then
      Listed None (Reply 400 (JsonObject [("error", "Invalid access token.")]))
    else
      let authorization := "Bearer " ++ Js.show realToken in
      match crm authorization with
      | Answered _ =>
          Listed (Some authorization)
                 (Reply 200
                    (JsonStrings "projects"
                       ["sales-analysis-app"; "human-resource-management"]))
      | Thrown message =>
          Listed (Some authorization)
                 (Reply 400 (JsonObject [("error", message)]))
      end.

(** *** [GET /gcpprojects] of [login/index.js] *)

(** [req.headers.authorization.split(' ')[1]]: [None] when the header is
    missing and [split] is called on [undefined], which throws before
    anything is answered; otherwise the second word, or [undefined]. *)
Definition header_token (authorization : option string)
  : option (option string) :=
  match authorization with
  | None => None
  | Some h => Some (nth_error (Js.split " " h) 1)
  end.

(** The handler; [crm] answers with the ids of the projects.  [None]:
    the handler threw before answering. *)
Definition gcpprojects_by_header (authorization : option string)
           (crm : string -> upstream (list string)) : option listed :=
  match header_token authorization with
  | None => None
  | Some accessToken =>
      Some
        (if negb (Js.truthy accessToken) then
           Listed None
                  (Reply 401 (JsonObject [("error", "Missing access token.")]))
         else
           let sent := "Bearer " ++ Js.show accessToken in
           match crm sent with
           | Answered projects =>
               Listed (Some sent) (Reply 200 (JsonStrings "projects" projects))
           | Thrown message =>
               Listed (Some sent)
                      (Reply 400 (JsonObject [("error", message)]))
           end)
  end.

End Gateway.

Module Sessions.
Import Pkce Metadata.

(** A credential store with a session of this application and an entry
    of another one. *)
Definition stored : gmap (string * string) string :=
  {[ (APP_ID, "RefreshToken") := "old-token";
     ("OtherApp", "RefreshToken") := "theirs" ]}.

(** A token endpoint that rotates the refresh token. *)
Definition rotating : network :=
  fun _ _ =>
    Response 200
      (Json (TokenResponse (Some "id") (Some "new-token") None None [])).

(** An endpoint that is down. *)
Definition down : network := fun _ _ => NetworkError "connect ECONNREFUSED".

End Sessions.

(* ===================================================================== *)
(** ** Strings *)
(* ===================================================================== *)

Section StringFacts.

Lemma append_nil_l (s : string) : "" ++ s = s.
Proof. reflexivity. Qed.

Lemma append_cons (c : ascii) (r s : string) :
  String c r ++ s = String c (r ++ s).
Proof. reflexivity. Qed.

Lemma replace_all_swap (a a' b b' : ascii) (s : string) :
  a <> b -> a <> b' -> a' <> b ->
  Js.replace_all a a' (Js.replace_all b b' s)
  = Js.replace_all b b' (Js.replace_all a a' s).
Proof.
  intros Hab Hab' Ha'b.
  induction s as [|x r IH]; simpl; [reflexivity|].
  rewrite IH. f_equal.
  destruct (Ascii.eqb_spec x b) as [->|Hxb].
  - destruct (Ascii.eqb_spec b a) as [E|_]; [congruence|].
    destruct (Ascii.eqb_spec b' a) as [E|_]; [congruence|].
    now rewrite Ascii.eqb_refl.
  - destruct (Ascii.eqb_spec x a) as [->|Hxa].
    + destruct (Ascii.eqb_spec a' b) as [E|_]; [congruence|reflexivity].
    + destruct (Ascii.eqb_spec x b) as [E|_]; [congruence|reflexivity].
Qed.

Lemma occurs_replace_all_same (c d : ascii) (s : string) :
  c <> d -> Js.occurs c (Js.replace_all c d s) = false.
Proof.
  intros Hcd. induction s as [|x r IH]; simpl; [reflexivity|].
  rewrite IH, orb_false_r.
  destruct (Ascii.eqb_spec x c) as [->|Hx].
  - destruct (Ascii.eqb_spec d c); congruence.
  - destruct (Ascii.eqb_spec x c); congruence.
Qed.

Lemma occurs_replace_all_other (c a b : ascii) (s : string) :
  b <> c -> Js.occurs c s = false ->
  Js.occurs c (Js.replace_all a b s) = false.
Proof.
  intros Hbc. induction s as [|x r IH]; simpl; [reflexivity|].
  intros H. apply orb_false_iff in H as [Hx Hr].
  rewrite (IH Hr), orb_false_r.
  destruct (Ascii.eqb x a); [|exact Hx].
  destruct (Ascii.eqb_spec b c); congruence.
Qed.

Lemma occurs_replace_eq_tail (c : ascii) (s : string) :
  Js.occurs c s = false -> Js.occurs c (Js.replace_eq_tail s) = false.
Proof.
  induction s as [|x r IH]; [reflexivity|].
  intros H. change (Js.replace_eq_tail (String x r))
    with (if Js.eq_star_end (String x r) then ""
          else String x (Js.replace_eq_tail r)).
  destruct (Js.eq_star_end (String x r)); [reflexivity|].
  simpl in *. apply orb_false_iff in H as [Hx Hr].
  now rewrite Hx, (IH Hr).
Qed.

Lemma replace_eq_tail_cons (x : ascii) (r : string) :
  Js.replace_eq_tail (String x r)
  = if Js.eq_star_end (String x r) then ""
    else String x (Js.replace_eq_tail r).
Proof. reflexivity. Qed.

Lemma replace_eq_tail_empty (s : string) :
  Js.replace_eq_tail s = "" -> Js.eq_star_end s = true.
Proof.
  destruct s as [|x r]; [reflexivity|].
  rewrite replace_eq_tail_cons.
  destruct (Js.eq_star_end (String x r)); [reflexivity|discriminate].
Qed.

Lemma last_char_replace_eq_tail (s : string) :
  Js.last_char (Js.replace_eq_tail s) <> Some "="%char.
Proof.
  induction s as [|x r IH]; [discriminate|].
  rewrite replace_eq_tail_cons.
  destruct (Js.eq_star_end (String x r)) eqn:E; [discriminate|].
  destruct (Js.replace_eq_tail r) as [|y t] eqn:T.
  - apply replace_eq_tail_empty in T. simpl in E. rewrite T, andb_true_r in E.
    simpl. intros [= ->]. discriminate.
  - exact IH.
Qed.

Lemma forallb_rev {A : Type} (p : A -> bool) (l : list A) :
  forallb p (rev l) = forallb p l.
Proof.
  induction l as [|x r IH]; [reflexivity|].
  simpl. rewrite forallb_app, IH. simpl. rewrite andb_true_r.
  apply andb_comm.
Qed.

Lemma drop_while_snoc {A : Type} (p : A -> bool) (l : list A) (x : A) :
  Spec.drop_while p (l ++ [x])%list
  = if forallb p l then (if p x then [] else [x])
    else (Spec.drop_while p l ++ [x])%list.
Proof.
  induction l as [|y r IH]; simpl; [reflexivity|].
  destruct (p y); simpl; [exact IH|reflexivity].
Qed.

Lemma eq_star_end_forallb (s : string) :
  Js.eq_star_end s = forallb Spec.is_pad (list_ascii_of_string s).
Proof. induction s as [|x r IH]; simpl; [reflexivity|now rewrite IH]. Qed.

(** The leftmost match of [=*$] is the whole run of trailing [=]. *)
Lemma replace_eq_tail_strips (s : string) :
  Js.replace_eq_tail s = Spec.strip_padding s.
Proof.
  unfold Spec.strip_padding.
  induction s as [|x r IH]; [reflexivity|].
  rewrite replace_eq_tail_cons, eq_star_end_forallb.
  cbn [list_ascii_of_string rev]. rewrite drop_while_snoc, forallb_rev.
  cbn [forallb]. fold (Spec.is_pad x).
  destruct (forallb Spec.is_pad (list_ascii_of_string r)) eqn:F.
  - rewrite andb_true_r. destruct (Spec.is_pad x); [reflexivity|].
    rewrite IH. rewrite <- (forallb_rev Spec.is_pad) in F.
    replace (Spec.drop_while Spec.is_pad (rev (list_ascii_of_string r)))
      with (@nil ascii); [reflexivity|].
    revert F. generalize (rev (list_ascii_of_string r)).
    intros l; induction l as [|y t IHt]; simpl; [reflexivity|].
    destruct (Spec.is_pad y); simpl; [exact IHt|discriminate].
  - rewrite andb_false_r, rev_app_distr. simpl. now rewrite IH.
Qed.

End StringFacts.

(* ===================================================================== *)
(** ** The code challenge *)
(* ===================================================================== *)

Import Pkce.

(** The test vector of RFC 7636, appendix B. *)
Example codeChallenge_rfc7636 :
  codeChallenge "dBjftJeZ4CVP-mB92K27uhbUJU1p1r_wW1gFWFOEjXk"
  = "E9Melhoa2OwvFrEMTJguCHaoeK1t8URWbuGJSstw-cM".
Proof. vm_compute. reflexivity. Qed.

(** C2. For every verifier, the challenge computed by the [/auth] handler
    is the base64 of the SHA-256 digest of the verifier with every [+]
    replaced by [-], every [/] by [_] and the trailing [=] removed; the
    same verifier gives the same challenge; the challenge has no [+], no
    [/] and does not end in [=]. *)
Theorem codeChallenge_spec (V V' : string) (same : V = V') :
  codeChallenge V = Spec.challenge V
  /\ codeChallenge V = codeChallenge V'
  /\ Js.occurs "+" (codeChallenge V) = false
  /\ Js.occurs "/" (codeChallenge V) = false
  /\ Js.last_char (codeChallenge V) <> Some "="%char.
Proof.
  subst V'. unfold codeChallenge, Spec.challenge.
  generalize (sha256_base64 V) as d. intros d.
  repeat split.
  - rewrite replace_eq_tail_strips. f_equal.
    apply replace_all_swap; discriminate.
  - apply occurs_replace_eq_tail, occurs_replace_all_same. discriminate.
  - apply occurs_replace_eq_tail, occurs_replace_all_other; [discriminate|].
    apply occurs_replace_all_same. discriminate.
  - apply last_char_replace_eq_tail.
Qed.

Lemma codeChallenge_spec_witness :
  let V := "dBjftJeZ4CVP-mB92K27uhbUJU1p1r_wW1gFWFOEjXk" in
  V = V
  /\ (codeChallenge V = Spec.challenge V
      /\ codeChallenge V = codeChallenge V
      /\ Js.occurs "+" (codeChallenge V) = false
      /\ Js.occurs "/" (codeChallenge V) = false
      /\ Js.last_char (codeChallenge V) <> Some "="%char).
Proof.
  split; [reflexivity|].
  apply (codeChallenge_spec "dBjftJeZ4CVP-mB92K27uhbUJU1p1r_wW1gFWFOEjXk"
                            "dBjftJeZ4CVP-mB92K27uhbUJU1p1r_wW1gFWFOEjXk").
  reflexivity.
Defined.

(* ===================================================================== *)
(** ** Random strings and issued states *)
(* ===================================================================== *)

Section RandomStrings.

Lemma random_index_bound (r : N) (n : nat) :
  (0 < n)%nat -> (random_index r n < n)%nat.
Proof.
  intros Hn. unfold random_index.
  assert (H : (r mod 2 ^ 53 * N.of_nat n / 2 ^ 53 < N.of_nat n)%N).
  { apply N.Div0.div_lt_upper_bound.
    apply N.mul_lt_mono_pos_r; [lia|].
    apply N.mod_lt. discriminate. }
  lia.
Qed.

Lemma charAt_in_range (s : string) (i : nat) :
  (i < String.length s)%nat ->
  exists c, Js.charAt s i = String c "" /\ Js.occurs c s = true.
Proof.
  revert i. induction s as [|x r IH]; simpl; intros i Hi; [lia|].
  destruct i as [|j].
  - exists x. now rewrite Ascii.eqb_refl.
  - destruct (IH j) as (c & Hc & Ho); [lia|].
    exists c. split; [exact Hc|]. rewrite Ho. apply orb_true_r.
Qed.

Lemma random_chars_shape (n : nat) (chars : string) (e : nat -> N)
      (pos : nat) :
  (0 < String.length chars)%nat ->
  String.length (random_chars n chars e pos) = n
  /\ chars_in chars (random_chars n chars e pos) = true.
Proof.
  intros Hc. revert pos. induction n as [|m IH]; intros pos; simpl.
  - split; reflexivity.
  - destruct (charAt_in_range chars
                (random_index (e pos) (String.length chars)))
      as (c & -> & Ho); [now apply random_index_bound|].
    destruct (IH (S pos)) as [Hl Hin].
    rewrite append_cons, append_nil_l. simpl.
    rewrite Hl, Ho, Hin. split; reflexivity.
Qed.

(** The state drawn by [/auth] is a state token. *)
Lemma next_state_token (w : world) : is_state_token (next_state w) = true.
Proof.
  unfold is_state_token, next_state, generateRandomString. simpl Js.truthy.
  cbv iota.
  destruct (random_chars_shape STATE_LENGTH default_chars (entropy w)
              (drawn w + CODE_VERIFIER_LENGTH)) as [Hl Hin].
  { simpl. lia. }
  rewrite Hl, Hin. reflexivity.
Qed.

(** No state token is the name of a property of [Object.prototype]. *)
Lemma state_token_not_inherited (k : string) :
  is_state_token k = true -> Js.inherited k = false.
Proof.
  intros Hk. destruct (Js.inherited k) eqn:E; [|reflexivity].
  unfold Js.inherited in E. apply existsb_exists in E as (n & Hn & Hkn).
  apply String.eqb_eq in Hkn. subst n.
  simpl in Hn.
  repeat (destruct Hn as [<-|Hn]; [vm_compute in Hk; discriminate|]).
  destruct Hn.
Qed.

Lemma state_token_not_proto (k : string) :
  is_state_token k = true -> String.eqb k "__proto__" = false.
Proof.
  intros Hk. destruct (String.eqb_spec k "__proto__") as [->|]; [|reflexivity].
  vm_compute in Hk. discriminate.
Qed.

End RandomStrings.

(* ===================================================================== *)
(** ** Frame properties of the operations *)
(* ===================================================================== *)

Section Frames.

Lemma settle_this (flow : nat) (p : promise) (w : world) :
  this (settle flow p w) = this w.
Proof.
  unfold settle. destruct (promises w !! flow) as [[| |]|]; reflexivity.
Qed.

Lemma settle_trace (flow : nat) (p : promise) (w : world) :
  trace (settle flow p w) = trace w.
Proof.
  unfold settle. destruct (promises w !! flow) as [[| |]|]; reflexivity.
Qed.

Lemma close_server (w : world) : server (this (close w)) = None.
Proof.
  unfold close. destruct (server (this w)) eqn:E; [reflexivity|exact E].
Qed.

Lemma close_promises (w : world) : promises (close w) = promises w.
Proof. unfold close. destruct (server (this w)); reflexivity. Qed.

Lemma close_client (w : world) :
  this (close w) = set_server None (this w).
Proof.
  unfold close. destruct (server (this w)) eqn:E; [reflexivity|].
  destruct w as [[c sc sv ad st ap] ps e d h su t]. simpl in *. now subst.
Qed.

Lemma close_trace (w : world) :
  trace (close w)
  = (trace w ++ match server (this w) with
                | Some h => [ServerClose h]
                | None => []
                end)%list.
Proof.
  unfold close. destruct (server (this w)); simpl; [reflexivity|].
  now rewrite app_nil_r.
Qed.

Lemma close_idle (w : world) : server (this w) = None -> close w = w.
Proof. intros H. unfold close. now rewrite H. Qed.

Lemma close_close (w : world) : close (close w) = close w.
Proof. apply close_idle, close_server. Qed.

Lemma fetches_app (a b : list event) :
  fetches (a ++ b) = (fetches a ++ fetches b)%list.
Proof.
  induction a as [|x r IH]; [reflexivity|].
  destruct x; simpl; rewrite IH; reflexivity.
Qed.

Lemma close_fetches (w : world) :
  fetches (trace (close w)) = fetches (trace w).
Proof.
  rewrite close_trace, fetches_app.
  destruct (server (this w)); simpl; now rewrite app_nil_r.
Qed.

Lemma callback_resume_world (flow : nat) (r : fetch_result) (w : world) :
  exists p, fst (callback_resume flow r w) = close (settle flow p w).
Proof.
  destruct r as [st [j|m]|m]; simpl; [|eauto..].
  destruct (N.eqb st 200); simpl; eauto.
Qed.

Lemma stack_of_snoc (fs : list nat) (f : nat) :
  stack_of (fs ++ [f]) = (stack_of fs ++ [AuthRoute; CallbackRoute f])%list.
Proof. unfold stack_of. rewrite flat_map_app. simpl. reflexivity. Qed.

End Frames.

(* ===================================================================== *)
(** ** Invariants of a run *)
(* ===================================================================== *)

Section Invariants.

Lemma invariant_new (c : config) (e : nat -> N) : invariant (new_world c e).
Proof.
  split; simpl.
  - intros k v H. now rewrite lookup_empty in H.
  - exists []. reflexivity.
  - reflexivity.
Qed.

(** Steps that leave the store and the stack alone keep the
    invariant. *)
Lemma invariant_same_store (w w' : world) :
  sessionStore (this w') = sessionStore (this w) ->
  app (this w') = app (this w) ->
  invariant w -> invariant w'.
Proof.
  intros Hs Ha [I1 I2 I3]. split; rewrite ?Hs, ?Ha; assumption.
Qed.

Lemma invariant_close_settle (flow : nat) (p : promise) (w : world) :
  invariant w -> invariant (close (settle flow p w)).
Proof.
  apply invariant_same_store;
    now rewrite close_client, settle_this.
Qed.

Lemma invariant_authorize (sc : option string) (port : option N)
      (w : world) :
  invariant w -> invariant (fst (authorize sc port w)).
Proof.
  intros [I1 I2 I3]. unfold authorize.
  destruct (server (this w)) eqn:E; simpl; [now split|].
  split; simpl.
  - exact I1.
  - destruct I2 as [fs Hfs]. exists (fs ++ [List.length (promises w)])%list.
    now rewrite stack_of_snoc, Hfs.
  - intros H. now apply app_eq_nil in H as [_ H].
Qed.

Lemma invariant_listening (port : N) (w : world) :
  invariant w -> invariant (listening port w).
Proof.
  unfold listening. destruct (server (this w)); [|trivial].
  now apply invariant_same_store.
Qed.

Lemma invariant_get_auth (w : world) :
  invariant w -> invariant (fst (get_auth w)).
Proof.
  intros [I1 I2 I3]. unfold get_auth.
  destruct (has_auth_route (app (this w))) eqn:E; simpl; [|now split].
  split; simpl.
  - intros k v. unfold Js.set.
    rewrite (state_token_not_proto _ (next_state_token w)).
    rewrite lookup_insert. case_decide as Hk.
    + intros _. subst k. apply next_state_token.
    + apply I1.
  - exact I2.
  - intros H. rewrite H in E. discriminate.
Qed.

Lemma invariant_get_callback (req : http_request) (w : world) :
  invariant w -> invariant (exec (GetCallback req) w).
Proof.
  intros I. pose proof I as [I1 I2 I3]. unfold exec, get_callback.
  destruct (callback_route (app (this w))) as [flow|]; [|exact I].
  unfold callback_begin.
  destruct (callback_valid req (this w)).
  - split; simpl.
    + intros k v H. unfold Js.delete in H.
      apply lookup_delete_Some in H as [_ H]. eauto.
    + exact I2.
    + intros H. rewrite (I3 H). unfold Js.delete. apply delete_empty.
  - now apply invariant_close_settle.
Qed.

Lemma invariant_fetch_done (i : nat) (r : fetch_result) (w : world) :
  invariant w -> invariant (exec (FetchDone i r) w).
Proof.
  intros I. unfold exec.
  destruct (suspended w !! i) as [flow|]; [|exact I].
  destruct (callback_resume_world flow r
              (set_suspended (remove_at i (suspended w)) w)) as [p ->].
  apply invariant_close_settle.
  now apply (invariant_same_store w).
Qed.

Lemma invariant_exec (o : op) (w : world) :
  invariant w -> invariant (exec o w).
Proof.
  destruct o.
  - apply invariant_authorize.
  - apply invariant_listening.
  - simpl. apply invariant_same_store; now rewrite close_client.
  - apply invariant_get_auth.
  - apply invariant_get_callback.
  - apply invariant_fetch_done.
Qed.

Lemma invariant_exec_all (ops : list op) (w : world) :
  invariant w -> invariant (exec_all ops w).
Proof.
  revert w. induction ops as [|o r IH]; intros w I; [exact I|].
  simpl. apply IH, invariant_exec, I.
Qed.

Lemma reachable_invariant (w : world) : reachable w -> invariant w.
Proof.
  intros (c & e & ops & ->). apply invariant_exec_all, invariant_new.
Qed.

(** In a run, a stored state has a [/callback] handler to go to. *)
Lemma invariant_route (w : world) (k v : string) :
  invariant w -> sessionStore (this w) !! k = Some v ->
  exists flow, callback_route (app (this w)) = Some flow.
Proof.
  intros [_ [fs Hfs] I3] Hk. destruct fs as [|f fs].
  - rewrite (I3 Hfs), lookup_empty in Hk. discriminate.
  - exists f. now rewrite Hfs.
Qed.

End Invariants.

(* ===================================================================== *)
(** ** One flow at a time *)
(* ===================================================================== *)

(** C4. With the [server] handle set, [authorize] returns a rejected
    promise at once and changes nothing: the client (scopes, session
    store, server, stack of handlers), the promises of earlier flows and
    the effects performed so far (no listener bound, no request sent, no
    browser opened) are as before. *)
Theorem authorize_while_running (w : world) (sc : option string)
        (port : option N) :
  server (this w) <> None ->
  authorize sc port w
  = (w, RejectedNow
          "Pending authorization flow. Close existing session to rerun.")
  /\ scopes (this (fst (authorize sc port w))) = scopes (this w)
  /\ sessionStore (this (fst (authorize sc port w))) = sessionStore (this w)
  /\ server (this (fst (authorize sc port w))) = server (this w)
  /\ trace (fst (authorize sc port w)) = trace w.
Proof.
  intros H. unfold authorize.
  destruct (server (this w)) as [h|] eqn:E; [|congruence].
  simpl. repeat split. exact E.
Qed.

Lemma authorize_while_running_witness :
  server (this Demo.listening0) <> None
  /\ (authorize (Some "email") (Some 8080%N) Demo.listening0
      = (Demo.listening0,
         RejectedNow
           "Pending authorization flow. Close existing session to rerun.")
      /\ scopes (this (fst (authorize (Some "email") (Some 8080%N)
                                      Demo.listening0)))
         = scopes (this Demo.listening0)
      /\ sessionStore (this (fst (authorize (Some "email") (Some 8080%N)
                                            Demo.listening0)))
         = sessionStore (this Demo.listening0)
      /\ server (this (fst (authorize (Some "email") (Some 8080%N)
                                      Demo.listening0)))
         = server (this Demo.listening0)
      /\ trace (fst (authorize (Some "email") (Some 8080%N) Demo.listening0))
         = trace Demo.listening0).
Proof.
  split; [discriminate|].
  apply (authorize_while_running Demo.listening0). discriminate.
Defined.

(* ===================================================================== *)
(** ** The listener is closed on every path *)
(* ===================================================================== *)

(** C8. However the [/callback] handler of a flow ends -- turned down at
    validation, or resumed after the exchange with a 200 answer, another
    status, an unreadable body or a transport failure -- its last act is
    [close()]: the world it leaves is [close] of the world in which the
    promise was settled, the [server] handle is null, and a listener that
    was bound has been closed.  [close] is idempotent, and does nothing
    to a client without a listener. *)
Theorem callback_always_closes (flow : nat) (req : http_request)
        (r : fetch_result) (w : world) :
  match callback_begin flow req w with
  | Responded w' _ =>
      w' = close (settle flow (Rejected invalid_idp_response) w)
      /\ server (this w') = None
  | Awaiting _ _ => True
  end
  /\ (exists p, fst (callback_resume flow r w) = close (settle flow p w))
  /\ server (this (fst (callback_resume flow r w))) = None
  /\ trace (fst (callback_resume flow r w))
     = (trace w ++ match server (this w) with
                   | Some h => [ServerClose h]
                   | None => []
                   end)%list
  /\ close (close w) = close w
  /\ close (with_client (set_server None) w) = with_client (set_server None) w.
Proof.
  repeat split.
  - unfold callback_begin. destruct (callback_valid req (this w)); [exact I|].
    split; [reflexivity|apply close_server].
  - apply callback_resume_world.
  - destruct (callback_resume_world flow r w) as [p ->]. apply close_server.
  - destruct (callback_resume_world flow r w) as [p ->].
    now rewrite close_trace, settle_trace, settle_this.
  - apply close_close.
Qed.

(* ===================================================================== *)
(** ** What [close] leaves alone *)
(* ===================================================================== *)

Section Pending.

Lemma exec_keeps_pending (o : op) (w : world) (flow : nat) :
  is_callback_op o = false ->
  promises w !! flow = Some Pending ->
  promises (exec o w) !! flow = Some Pending.
Proof.
  destruct o; simpl; try discriminate; intros _ H.
  - unfold authorize. destruct (server (this w)); simpl; [exact H|].
    now apply lookup_app_l_Some.
  - unfold listening. destruct (server (this w)); exact H.
  - now rewrite close_promises.
  - unfold get_auth. destruct (has_auth_route (app (this w))); exact H.
Qed.

Lemma exec_all_keeps_pending (ops : list op) (w : world) (flow : nat) :
  forallb (fun o => negb (is_callback_op o)) ops = true ->
  promises w !! flow = Some Pending ->
  promises (exec_all ops w) !! flow = Some Pending.
Proof.
  revert w. induction ops as [|o r IH]; intros w Hops H; [exact H|].
  simpl in Hops. apply andb_true_iff in Hops as [Ho Hr].
  simpl. apply IH; [exact Hr|].
  apply exec_keeps_pending; [|exact H].
  now destruct (is_callback_op o).
Qed.

End Pending.

(** X23. [close] changes the [server] handle and nothing else: the
    promises, the session store and the scopes are as before.  A promise
    that was pending stays pending through [close] and through every
    later step that is not the handling of a [/callback] request. *)
Theorem close_frame (w : world) (flow : nat) (ops : list op) :
  forallb (fun o => negb (is_callback_op o)) ops = true ->
  promises w !! flow = Some Pending ->
  promises (close w) = promises w
  /\ this (close w) = set_server None (this w)
  /\ sessionStore (this (close w)) = sessionStore (this w)
  /\ scopes (this (close w)) = scopes (this w)
  /\ promises (exec_all ops (close w)) !! flow = Some Pending.
Proof.
  intros Hops H. rewrite close_client, close_promises. repeat split.
  apply exec_all_keeps_pending; [exact Hops|].
  now rewrite close_promises.
Qed.

Lemma close_frame_witness :
  forallb (fun o => negb (is_callback_op o))
          [Authorize None None; Listening 5555; GetAuth; Close] = true
  /\ promises Demo.redirected0 !! 0%nat = Some Pending
  /\ (promises (close Demo.redirected0) = promises Demo.redirected0
      /\ this (close Demo.redirected0)
         = set_server None (this Demo.redirected0)
      /\ sessionStore (this (close Demo.redirected0))
         = sessionStore (this Demo.redirected0)
      /\ scopes (this (close Demo.redirected0))
         = scopes (this Demo.redirected0)
      /\ promises
           (exec_all [Authorize None None; Listening 5555; GetAuth; Close]
                     (close Demo.redirected0)) !! 0%nat
         = Some Pending).
Proof.
  split; [reflexivity|]. split; [reflexivity|].
  apply (close_frame Demo.redirected0 0
           [Authorize None None; Listening 5555; GetAuth; Close]);
    reflexivity.
Defined.

(** C10. The code departs from the claim.  A flow is started and aborted
    with [close] before any [/callback] request: its promise is pending
    and [close] has not touched it.  A second flow is started on the
    same client and completes.  Every [authorize] registers a [/callback]
    handler of its own on the one application, and the first registered
    serves every request: the [/callback] request of the second flow
    goes to the handler of the first, which resolves the promise of the
    aborted flow, while the promise of the second flow, whose [resolve]
    and [reject] went to [init], stays pending. *)
Lemma aborted_promise_settled_by_later_flow :
  let aborted :=
    exec_all [Authorize None None; Listening 5555; Close] Demo.fresh in
  let again := exec_all [Authorize None None; Listening 5555] aborted in
  let later := exec GetAuth again in
  let req :=
    HttpRequest (Some (next_state again)) (Some "auth-code")
                (Some (next_state again)) in
  let done :=
    exec_all [GetCallback req; FetchDone 0 (Response 200 (Json Demo.tokens0))]
             later in
  promises aborted = [Pending]
  /\ trace aborted = [Listen 0 5555; OpenBrowser "http://localhost:5555/auth";
                      ServerClose 0]
  /\ promises done = [Resolved Demo.tokens0; Pending].
Proof.
  vm_compute. repeat split.
Qed.

(* ===================================================================== *)
(** ** The session store across flows *)
(* ===================================================================== *)

(** C9, as stated, fails: a flow goes through [/auth], which stores a
    state, and is aborted with [close] before any [/callback]; when the
    next [authorize] has started its flow the state is still in the
    store, with its verifier. *)
Lemma stale_state_survives_abort :
  let aborted := exec_all [GetAuth; Close] Demo.listening0 in
  sessionStore (this Demo.listening0) !! Demo.state0 = None
  /\ sessionStore (this aborted) !! Demo.state0 = Some Demo.verifier0
  /\ server (this aborted) = None
  /\ snd (authorize None None aborted) = Flow 1
  /\ sessionStore (this (fst (authorize None None aborted))) !! Demo.state0
     <> None.
Proof.
  vm_compute. repeat split. discriminate.
Qed.

(** C9, as the code has it. The session store belongs to the client, not
    to a flow: the constructor creates it empty, and neither [close] nor
    [authorize] (accepted or not) changes it, so whatever a flow left in
    it is there when the next flow begins. *)
Theorem session_store_outlives_flows (c : config) (e : nat -> N)
        (w : world) (sc : option string) (port : option N) :
  sessionStore (this (new_world c e)) = ∅
  /\ sessionStore (this (close w)) = sessionStore (this w)
  /\ sessionStore (this (fst (authorize sc port w))) = sessionStore (this w)
  /\ sessionStore (this (fst (authorize sc port (close w))))
     = sessionStore (this w).
Proof.
  assert (A : forall w', sessionStore (this (fst (authorize sc port w')))
                         = sessionStore (this w')).
  { intros w'. unfold authorize. now destruct (server (this w')). }
  repeat split.
  - now rewrite close_client.
  - apply A.
  - now rewrite A, close_client.
Qed.

(* ===================================================================== *)
(** ** Validation of the callback *)
(* ===================================================================== *)

Section Validation.

Lemma truthy_spec (v : option string) :
  Js.truthy v = true <-> exists s, v = Some s /\ s <> "".
Proof.
  split.
  - destruct v as [[|c r]|]; try discriminate. intros _. now eexists.
  - intros (s & -> & Hs). now destruct s.
Qed.

Lemma strict_eq_some (a : option string) (s : string) :
  Js.strict_eq a (Some s) = true <-> a = Some s.
Proof.
  destruct a as [x|]; simpl; [|easy].
  rewrite String.eqb_eq. split; congruence.
Qed.

Lemma get_defined (obj : gmap string string) (k : string) :
  Js.defined (Js.get obj k) = true
  <-> is_Some (obj !! k) \/ Js.inherited k = true.
Proof.
  unfold Js.get. destruct (obj !! k) as [v|]; simpl.
  - split; [eauto|reflexivity].
  - destruct (Js.inherited k); simpl; split; try tauto.
    + intros [[v Hv]|H]; discriminate.
  Qed.

(** What the handler's condition checks: the first three conditions as
    the flow describes them, and for the fourth a name that yields
    something on lookup, stored or inherited. *)
Lemma callback_valid_conditions (req : http_request) (c : client) :
  callback_valid req c = true
  <-> exists s code,
      query_state req = Some s /\ s <> ""
      /\ query_code req = Some code /\ code <> ""
      /\ cookie_session_state req = Some s
      /\ (is_Some (sessionStore c !! s) \/ Js.inherited s = true).
Proof.
  unfold callback_valid. rewrite !andb_true_iff, !truthy_spec, get_defined.
  split.
  - intros [[[(s & Hs & Hne) (code & Hc & Hcne)] He] Hd].
    rewrite Hs in He, Hd. apply strict_eq_some in He. simpl in Hd.
    exists s, code. tauto.
  - intros (s & code & Hs & Hne & Hc & Hcne & Hk & Hd).
    rewrite Hs, Hk. simpl. rewrite String.eqb_refl. eauto 10.
Qed.

(** A request failing the handler's condition is answered 400, its flow
    is rejected if still pending, and nothing is sent to the network. *)
Lemma callback_invalid (flow : nat) (req : http_request) (w : world) :
  callback_valid req (this w) = false ->
  callback_begin flow req w
  = Responded (close (settle flow (Rejected invalid_idp_response) w))
              (send 400 invalid_idp_response)
  /\ fetches (trace (close (settle flow (Rejected invalid_idp_response) w)))
     = fetches (trace w).
Proof.
  intros H. unfold callback_begin. rewrite H. split; [reflexivity|].
  now rewrite close_fetches, settle_trace.
Qed.

(** With a state that is neither stored nor an inherited name, the
    request fails the condition. *)
Lemma callback_unknown_state (req : http_request) (c : client) (s : string) :
  query_state req = Some s ->
  sessionStore c !! s = None -> Js.inherited s = false ->
  callback_valid req c = false.
Proof.
  intros Hs Hk Hi. destruct (callback_valid req c) eqn:E; [|reflexivity].
  apply callback_valid_conditions in E
    as (s' & code & Hs' & _ & _ & _ & _ & [[v Hv]|Hd]);
    congruence.
Qed.

End Validation.

(** The scenario of a flow that goes well: the token endpoint answers
    200 with [id_token] and [refresh_token]; the valid [/callback] hit
    redirects to [successUri], resolves the flow with that object and
    leaves no listener. *)
Example callback_happy_path :
  let net := fun _ => Response 200 (Json Demo.tokens0) in
  let end_ := handle_callback net Demo.callback0 Demo.redirected0 in
  snd end_ = redirect 302 "https://app.example/signed-in" None
  /\ promises (fst end_) = [Resolved Demo.tokens0]
  /\ server (this (fst end_)) = None
  /\ sessionStore (this (fst end_)) = ∅.
Proof. vm_compute. repeat split. Qed.

(** C1, at an input where the code departs from it. The client is
    waiting for the browser and its session store is empty; a
    [/callback] request arrives whose cookie and query carry the state
    [constructor].  The lookup [sessionStore['constructor']] finds the
    function inherited from [Object.prototype], so the handler goes on
    to the exchange: it posts to the token endpoint, with the text of
    that function as the verifier, and a 200 answer resolves the flow
    and redirects the browser to [successUri]. *)
Theorem callback_accepts_inherited_state :
  sessionStore (this Demo.listening0) = ∅
  /\ exists w1 request,
      get_callback Demo.forged0 Demo.listening0 = Awaiting w1 request
      /\ fetch_url request = tokenUri Demo.config0
      /\ fetch_body request
         = "grant_type=authorization_code&client_id=desktop-app&code=auth-code&code_verifier=function%20Object()%20%7B%20%5Bnative%20code%5D%20%7D&redirect_uri=http%3A%2F%2Flocalhost%3A5555%2Fcallback"
      /\ fetches (trace w1) = [request]
      /\ promises
           (fst (callback_resume 0 (Response 200 (Json Demo.tokens0)) w1))
         = [Resolved Demo.tokens0]
      /\ snd (callback_resume 0 (Response 200 (Json Demo.tokens0)) w1)
         = redirect 302 (successUri Demo.config0) None.
Proof.
  split; [reflexivity|].
  eexists. eexists. split; [reflexivity|].
  vm_compute. repeat split.
Qed.

(* ===================================================================== *)
(** ** Replay of a state *)
(* ===================================================================== *)

Section Replay.

Lemma turned_down_without_entry (req : http_request) (w : world)
      (s : string) (flow : nat) :
  callback_route (app (this w)) = Some flow ->
  query_state req = Some s ->
  sessionStore (this w) !! s = None ->
  Js.inherited s = false ->
  turned_down req w.
Proof.
  intros Hr Hs Hk Hi. unfold turned_down, get_callback. rewrite Hr.
  destruct (callback_invalid flow req w) as [-> Hf].
  { now apply callback_unknown_state with s. }
  eauto.
Qed.

Lemma callback_resume_client (flow : nat) (r : fetch_result) (w : world) :
  this (fst (callback_resume flow r w)) = set_server None (this w).
Proof.
  destruct (callback_resume_world flow r w) as [p ->].
  now rewrite close_client, settle_this.
Qed.

End Replay.

(** C3. In a run of the client, let a first [/callback] request carry a
    state that is in the session store, the same state in its cookie,
    and a code.  Its handler removes the entry and only then sends the
    token request: in the world where the handler waits for the answer
    the entry is gone.  A second request with the same state, whether it
    comes while the first waits or after the first has completed (with
    whatever answer), finds no entry: it is answered 400
    [Invalid IdP response] and sends nothing to the token endpoint. *)
Theorem callback_replay_rejected (w : world) (first second : http_request)
        (s v : string) (r : fetch_result) :
  reachable w ->
  query_state first = Some s ->
  cookie_session_state first = Some s ->
  Js.truthy (query_code first) = true ->
  sessionStore (this w) !! s = Some v ->
  query_state second = Some s ->
  exists flow w1 request,
    callback_route (app (this w)) = Some flow
    /\ get_callback first w = Awaiting w1 request
    /\ sessionStore (this w1) = base.delete s (sessionStore (this w))
    /\ sessionStore (this w1) !! s = None
    /\ trace w1 = (trace w ++ [Fetch request])%list
    /\ turned_down second w1
    /\ sessionStore (this (fst (callback_resume flow r w1))) !! s = None
    /\ turned_down second (fst (callback_resume flow r w1)).
Proof.
  intros Hreach Hs Hck Hcode Hv Hs2.
  pose proof (reachable_invariant w Hreach) as Hinv.
  destruct (invariant_route w s v Hinv Hv) as [flow Hflow].
  pose proof (inv_keys w Hinv s v Hv) as Htok.
  pose proof (state_token_not_inherited s Htok) as Hinh.
  assert (Hne : s <> "") by (intros ->; discriminate).
  assert (Hvalid : callback_valid first (this w) = true).
  { apply truthy_spec in Hcode as (code & Hc & Hcne).
    apply callback_valid_conditions. exists s, code. eauto 10. }
  exists flow. unfold get_callback. rewrite Hflow.
  unfold callback_begin. rewrite Hvalid, Hs. simpl Js.show.
  eexists. eexists. split; [reflexivity|]. split; [reflexivity|].
  assert (Hgone : base.delete s (sessionStore (this w)) !! s = None)
    by apply lookup_delete_eq.
  repeat split.
  - exact Hgone.
  - apply turned_down_without_entry with s flow; auto.
  - rewrite callback_resume_client. exact Hgone.
  - apply turned_down_without_entry with s flow; auto;
      rewrite callback_resume_client; simpl; auto.
Qed.

Lemma callback_replay_rejected_witness :
  reachable Demo.redirected0
  /\ query_state Demo.callback0 = Some Demo.state0
  /\ cookie_session_state Demo.callback0 = Some Demo.state0
  /\ Js.truthy (query_code Demo.callback0) = true
  /\ sessionStore (this Demo.redirected0) !! Demo.state0
     = Some Demo.verifier0
  /\ query_state Demo.callback0 = Some Demo.state0
  /\ exists flow w1 request,
      callback_route (app (this Demo.redirected0)) = Some flow
      /\ get_callback Demo.callback0 Demo.redirected0 = Awaiting w1 request
      /\ sessionStore (this w1)
         = base.delete Demo.state0 (sessionStore (this Demo.redirected0))
      /\ sessionStore (this w1) !! Demo.state0 = None
      /\ trace w1 = (trace Demo.redirected0 ++ [Fetch request])%list
      /\ turned_down Demo.callback0 w1
      /\ sessionStore
           (this (fst (callback_resume flow
                         (Response 200 (Json Demo.tokens0)) w1)))
         !! Demo.state0 = None
      /\ turned_down Demo.callback0
           (fst (callback_resume flow (Response 200 (Json Demo.tokens0)) w1)).
Proof.
  assert (R : reachable Demo.redirected0).
  { exists Demo.config0, Demo.entropy0,
      [Authorize (Some "offline_access email") None; Listening 5555; GetAuth].
    reflexivity. }
  assert (K : sessionStore (this Demo.redirected0) !! Demo.state0
              = Some Demo.verifier0) by (vm_compute; reflexivity).
  repeat (split; [first [exact R | exact K | reflexivity]|]).
  exact (callback_replay_rejected Demo.redirected0 Demo.callback0
           Demo.callback0 Demo.state0 Demo.verifier0
           (Response 200 (Json Demo.tokens0))
           R eq_refl eq_refl eq_refl K eq_refl).
Defined.

(* ===================================================================== *)
(** ** Failures of the token endpoint *)
(* ===================================================================== *)

Section TokenErrors.

(** [refresh] fails on every answer whose status is not 200; with a
    readable body the message is [error_description] if truthy, else
    [error] if truthy, else a fixed text. *)
Lemma refresh_not_200 (c : config) (tok : string) (net : network)
      (st : N) (json : token_response) :
  net [] (refresh_request c tok) = Response st (Json json) ->
  st <> 200%N ->
  run net [] (refresh c tok)
  = ([refresh_request c tok], Failed (failure_message json)).
Proof.
  intros Hn Hst. simpl. rewrite Hn.
  destruct (N.eqb_spec st 200); [contradiction|reflexivity].
Qed.

Lemma failure_message_description (json : token_response) (d : string) :
  error_description json = Some d -> d <> "" -> failure_message json = d.
Proof.
  intros H Hd. unfold failure_message, Js.or. rewrite H.
  destruct d; [contradiction|reflexivity].
Qed.

Lemma failure_message_error (json : token_response) (e : string) :
  error_description json = None -> error json = Some e -> e <> "" ->
  failure_message json = e.
Proof.
  intros H He Hne. unfold failure_message, Js.or. rewrite H, He.
  destruct e; [contradiction|reflexivity].
Qed.

Lemma refresh_fails_not_200 (c : config) (tok : string) (net : network)
      (st : N) (b : json_body) :
  net [] (refresh_request c tok) = Response st b ->
  st <> 200%N ->
  exists m, run net [] (refresh c tok) = ([refresh_request c tok], Failed m).
Proof.
  intros Hn Hst. simpl. rewrite Hn. destruct b as [json|m]; [|eauto].
  destruct (N.eqb_spec st 200); [contradiction|]. simpl. eauto.
Qed.

Lemma exchange_fails_not_200 (flow : nat) (st : N) (b : json_body)
      (w : world) :
  st <> 200%N ->
  promises w !! flow = Some Pending ->
  exists m,
    promises (fst (callback_resume flow (Response st b) w)) !! flow
    = Some (Rejected m).
Proof.
  intros Hst Hp.
  assert (S : forall m, promises (close (settle flow (Rejected m) w)) !! flow
                        = Some (Rejected m)).
  { intros m. rewrite close_promises. unfold settle. rewrite Hp. simpl.
    apply list_lookup_insert_eq. now apply lookup_lt_Some with Pending. }
  destruct b as [json|m]; simpl; [|eauto].
  destruct (N.eqb_spec st 200); [contradiction|]. simpl. eauto.
Qed.

(** The stub of the end-to-end scenario: 400 with
    [{error: "invalid_grant"}]. *)
Example refresh_invalid_grant (tok : string) :
  snd (run Demo.stub_invalid_grant [] (refresh Demo.config0 tok))
  = Failed "invalid_grant".
Proof. reflexivity. Qed.

(** The exchange fails on every answer whose status is not 200: a
    pending flow is rejected.  With a readable body the message is the
    member [error], whatever [error_description] holds. *)
Lemma exchange_not_200 (flow : nat) (st : N) (json : token_response)
      (w : world) :
  st <> 200%N ->
  promises w !! flow = Some Pending ->
  promises (fst (callback_resume flow (Response st (Json json)) w)) !! flow
  = Some (Rejected (error_message (error json)))
  /\ snd (callback_resume flow (Response st (Json json)) w)
     = send st (error_message (error json)).
Proof.
  intros Hst Hp. simpl. destruct (N.eqb_spec st 200); [contradiction|].
  simpl. split; [|reflexivity].
  rewrite close_promises. unfold settle. rewrite Hp. simpl.
  apply list_lookup_insert_eq. now apply lookup_lt_Some with Pending.
Qed.

End TokenErrors.

(** C6, at an input where the code departs from it. The token endpoint
    answers 400 with [error] "invalid_grant" and an [error_description].
    [refresh] fails with the description; the exchange in the
    [/callback] handler, given the same answer, rejects the flow with
    [error] and sends [error] to the browser: the description is
    dropped. *)
Theorem exchange_drops_error_description :
  snd (run (fun _ _ => Response 400 (Json Demo.denied0)) []
           (refresh Demo.config0 "refresh-token"))
  = Failed "The authorization code has expired"
  /\ exists w1 request,
      get_callback Demo.callback0 Demo.redirected0 = Awaiting w1 request
      /\ promises (fst (callback_resume 0 (Response 400 (Json Demo.denied0)) w1))
         = [Rejected "invalid_grant"]
      /\ snd (callback_resume 0 (Response 400 (Json Demo.denied0)) w1)
         = send 400 "invalid_grant".
Proof.
  split; [reflexivity|].
  eexists. eexists. split; [vm_compute; reflexivity|].
  vm_compute. split; reflexivity.
Qed.

(* ===================================================================== *)
(** ** Logout *)
(* ===================================================================== *)

(** The stubs of the scenario: [id_token] "Z" from the token endpoint,
    200 from the revocation endpoint. *)
Example revokeAndGetLogoutUrl_stub :
  run Demo.stub_ok [] (revokeAndGetLogoutUrl Demo.config0 "refresh-token")
  = ([refresh_request Demo.config0 "refresh-token";
      revoke_request Demo.config0 "refresh-token" "refresh_token"],
     Fulfilled "https://idp.example/logout?id_token_hint=Z").
Proof. reflexivity. Qed.

(** C5. [revokeAndGetLogoutUrl] runs [refresh] first.  When [refresh]
    fails, the function fails with the same error and the request of
    [refresh] is the only one sent: [revoke] is not called.  When
    [refresh] succeeds, its answer was a 200 with a body [resp]; the
    request of [revoke], for the same token with the hint
    [refresh_token], is sent second and nothing else is sent; and when
    the revocation endpoint answers 200 the result is exactly
    [logoutUri], [?id_token_hint=] and the [id_token] of [resp]. *)
Theorem revokeAndGetLogoutUrl_spec (c : config) (refreshToken : string)
        (net : network) :
  let first := refresh_request c refreshToken in
  let second := revoke_request c refreshToken "refresh_token" in
  let result := run net [] (revokeAndGetLogoutUrl c refreshToken) in
  match run net [] (refresh c refreshToken) with
  | (sent, Failed m) => sent = [first] /\ result = ([first], Failed m)
  | (sent, Fulfilled resp) =>
      sent = [first]
      /\ net [] first = Response 200 (Json resp)
      /\ fst result = [first; second]
      /\ match net [first] second with
         | Response st _ =>
             if N.eqb st 200
             then snd result
                  = Fulfilled (logoutUri c ++ "?id_token_hint="
                               ++ Js.show (id_token resp))
             else exists m, snd result = Failed m
         | NetworkError m => snd result = Failed m
         end
  end.
Proof.
  cbv zeta. simpl.
  destruct (net [] (refresh_request c refreshToken)) as [st [json|m]|m] eqn:N1;
    simpl; try (split; reflexivity).
  destruct (N.eqb_spec st 200) as [->|Hst]; simpl; [|split; reflexivity].
  split; [reflexivity|]. split; [reflexivity|].
  destruct (net [refresh_request c refreshToken]
                (revoke_request c refreshToken "refresh_token"))
    as [st2 [json2|m2]|m2]; simpl.
  - destruct (N.eqb st2 200); simpl; split; eauto.
  - destruct (N.eqb st2 200); simpl; split; eauto.
  - split; reflexivity.
Qed.

(* ===================================================================== *)
(** ** URLs and their query parameters *)
(* ===================================================================== *)

Section Urls.

Lemma occurs_app (c : ascii) (a b : string) :
  Js.occurs c (a ++ b) = Js.occurs c a || Js.occurs c b.
Proof.
  induction a as [|x r IH]; [reflexivity|].
  rewrite append_cons. simpl. rewrite IH. apply orb_assoc.
Qed.

Lemma before_without (c : ascii) (s : string) :
  Js.occurs c s = false -> Js.before c s = s.
Proof.
  induction s as [|x r IH]; simpl; [reflexivity|].
  intros H. apply orb_false_iff in H as [Hx Hr].
  now rewrite Hx, (IH Hr).
Qed.

Lemma before_app (c : ascii) (a b : string) :
  Js.occurs c a = false -> Js.before c (a ++ String c b) = a.
Proof.
  induction a as [|x r IH]; intros H.
  - rewrite append_nil_l. simpl. now rewrite Ascii.eqb_refl.
  - rewrite append_cons. simpl in *. apply orb_false_iff in H as [Hx Hr].
    now rewrite Hx, (IH Hr).
Qed.

Lemma after_app (c : ascii) (a b : string) :
  Js.occurs c a = false -> Js.after c (a ++ String c b) = Some b.
Proof.
  induction a as [|x r IH]; intros H.
  - rewrite append_nil_l. simpl. now rewrite Ascii.eqb_refl.
  - rewrite append_cons. simpl in *. apply orb_false_iff in H as [Hx Hr].
    now rewrite Hx, (IH Hr).
Qed.

Lemma split_without (c : ascii) (s : string) :
  Js.occurs c s = false -> Js.split c s = [s].
Proof.
  induction s as [|x r IH]; simpl; [reflexivity|].
  intros H. apply orb_false_iff in H as [Hx Hr].
  now rewrite Hx, (IH Hr).
Qed.

Lemma split_app (c : ascii) (a b : string) :
  Js.occurs c a = false -> Js.split c (a ++ String c b) = a :: Js.split c b.
Proof.
  induction a as [|x r IH]; intros H.
  - rewrite append_nil_l. simpl. now rewrite Ascii.eqb_refl.
  - rewrite append_cons. simpl in *. apply orb_false_iff in H as [Hx Hr].
    now rewrite Hx, (IH Hr).
Qed.

Lemma split_join (c : ascii) (segs : list string) :
  segs <> [] ->
  Forall (fun x => Js.occurs c x = false) segs ->
  Js.split c (Js.join c segs) = segs.
Proof.
  induction segs as [|x r IH]; [congruence|].
  intros _ H. inversion H as [|? ? Hx Hr]; subst.
  destruct r as [|y t].
  - simpl. now apply split_without.
  - change (Js.join c (x :: y :: t)) with (x ++ String c (Js.join c (y :: t))).
    rewrite (split_app c x _ Hx). f_equal. now apply IH.
Qed.

Lemma occurs_join (c sep : ascii) (segs : list string) :
  c <> sep ->
  Forall (fun x => Js.occurs c x = false) segs ->
  Js.occurs c (Js.join sep segs) = false.
Proof.
  intros Hc. induction segs as [|x r IH]; [reflexivity|].
  intros H. inversion H as [|? ? Hx Hr]; subst.
  destruct r as [|y t]; [exact Hx|].
  change (Js.join sep (x :: y :: t))
    with (x ++ String sep (Js.join sep (y :: t))).
  rewrite occurs_app, Hx. cbn [Js.occurs orb]. rewrite (IH Hr), orb_false_r.
  destruct (Ascii.eqb_spec sep c); congruence.
Qed.

Lemma first_pair_skip (name k v : string) (rest : list string) :
  Js.occurs "=" k = false -> k <> name ->
  Js.first_pair name ((k ++ String "=" v) :: rest)
  = Js.first_pair name rest.
Proof.
  intros Hk Hne. simpl. rewrite (before_app _ _ _ Hk).
  destruct (String.eqb_spec k name); [contradiction|reflexivity].
Qed.

Lemma first_pair_hit (name v : string) (rest : list string) :
  Js.occurs "=" name = false ->
  Js.first_pair name ((name ++ String "=" v) :: rest) = Some v.
Proof.
  intros Hk. simpl.
  now rewrite (before_app _ _ _ Hk), (after_app _ _ _ Hk), String.eqb_refl.
Qed.

(** *** Percent-encoding *)

Lemma hex_digit_unreserved (d : nat) : Js.uri_unreserved (Js.hex_digit d) = true.
Proof. do 17 (destruct d as [|d]; [reflexivity|]). reflexivity. Qed.

Lemma hex_value_digit (d : nat) :
  (d < 16)%nat -> Js.hex_value (Js.hex_digit d) = Some d.
Proof. do 16 (destruct d as [|d]; [reflexivity|]). lia. Qed.

(** A character that [encodeURIComponent] escapes does not occur in its
    output. *)
Lemma encode_escapes (c : ascii) (s : string) :
  Js.uri_unreserved c = false -> c <> "%"%char ->
  Js.occurs c (Js.encodeURIComponent s) = false.
Proof.
  intros Hc Hp.
  assert (U : forall x, Js.uri_unreserved x = true -> Ascii.eqb x c = false).
  { intros x Hx. destruct (Ascii.eqb_spec x c); [subst; congruence|reflexivity]. }
  assert (P : Ascii.eqb "%" c = false) by (apply Ascii.eqb_neq; congruence).
  induction s as [|x r IH]; [reflexivity|].
  cbn [Js.encodeURIComponent].
  destruct (Js.uri_unreserved x) eqn:Hx; cbn [Js.occurs].
  - now rewrite (U x Hx), IH.
  - rewrite P, !U, IH by apply hex_digit_unreserved. reflexivity.
Qed.

Lemma decode_encode (s : string) :
  Js.decodeURIComponent (Js.encodeURIComponent s) = Some s.
Proof.
  induction s as [|x r IH]; [reflexivity|].
  cbn [Js.encodeURIComponent].
  destruct (Js.uri_unreserved x) eqn:Hx.
  - cbn [Js.decodeURIComponent].
    destruct (Ascii.eqb_spec x "%"%char) as [->|_]; [discriminate|].
    now rewrite IH.
  - cbn [Js.decodeURIComponent]. rewrite Ascii.eqb_refl.
    pose proof (nat_ascii_bounded x) as Hb.
    rewrite !hex_value_digit, IH.
    + replace (nat_of_ascii x / 16 * 16 + nat_of_ascii x mod 16)%nat
        with (nat_of_ascii x)
        by (pose proof (Nat.div_mod_eq (nat_of_ascii x) 16); lia).
      now rewrite ascii_nat_embedding.
    + apply Nat.mod_upper_bound. lia.
    + apply Nat.Div0.div_lt_upper_bound. lia.
Qed.

End Urls.

(* ===================================================================== *)
(** ** Scopes *)
(* ===================================================================== *)

Section Scopes.

(** The authorization URL is the endpoint, a [?], and eight [name=value]
    pairs joined by [&]. *)
Lemma authorization_url_pairs (c : client) (challenge state : string) :
  authorization_url c challenge state
  = authUri (cfg c)
    ++ String "?"
         (Js.join "&"
            [ "client_id"
              ++ String "=" (Js.encodeURIComponent (clientId (cfg c)));
              "redirect_uri"
              ++ String "="
                   (Js.encodeURIComponent
                      (Js.show_nullable (serverAddress c) ++ "/callback"));
              "response_type" ++ String "=" "code";
              "scope" ++ String "=" (Js.encodeURIComponent (scopes c));
              "code_challenge"
              ++ String "=" (Js.encodeURIComponent challenge);
              "code_challenge_method" ++ String "=" "S256";
              "prompt" ++ String "=" "login";
              "state" ++ String "=" (Js.encodeURIComponent state) ]).
Proof. reflexivity. Qed.

Lemma occurs_pair (c : ascii) (k v : string) :
  Js.occurs c k = false -> Ascii.eqb "=" c = false ->
  Js.occurs c v = false ->
  Js.occurs c (k ++ String "=" v) = false.
Proof.
  intros Hk He Hv. rewrite occurs_app, Hk. cbn [Js.occurs orb].
  now rewrite He, Hv.
Qed.

Ltac pair_without :=
  apply occurs_pair;
  [ reflexivity | reflexivity
  | first [ reflexivity
          | apply encode_escapes; [reflexivity | discriminate] ] ].

Ltac pairs_without :=
  repeat (apply List.Forall_cons; [pair_without|]); apply List.Forall_nil.

(** The [scope] parameter of the URL [/auth] redirects to is the scope
    the client has recorded. *)
Lemma authorization_url_scope (c : client) (challenge state : string) :
  Js.occurs "?" (authUri (cfg c)) = false ->
  Js.occurs "#" (authUri (cfg c)) = false ->
  Js.query_param "scope" (authorization_url c challenge state)
  = Some (scopes c).
Proof.
  intros Hq Hf. rewrite authorization_url_pairs. unfold Js.query_param.
  rewrite before_without.
  - rewrite (after_app _ _ _ Hq), split_join; [|discriminate|].
    2: pairs_without.
    rewrite !first_pair_skip by (reflexivity || discriminate).
    rewrite first_pair_hit by reflexivity.
    apply decode_encode.
  - rewrite occurs_app, Hf. cbn [Js.occurs orb].
    rewrite occurs_join; [reflexivity|discriminate|pairs_without].
Qed.

Lemma get_auth_scope (w : world) :
  has_auth_route (app (this w)) = true ->
  Js.occurs "?" (authUri (cfg (this w))) = false ->
  Js.occurs "#" (authUri (cfg (this w))) = false ->
  redirect_param "scope" (snd (get_auth w)) = Some (scopes (this w)).
Proof.
  intros Hr Hq Hf. unfold get_auth. rewrite Hr.
  unfold auth_handler, redirect_param. cbn [snd location redirect].
  now apply authorization_url_scope.
Qed.

(** The client after an accepted [authorize] and the listener's report. *)
Lemma started_client (w : world) (sc : option string) (port : option N)
      (bound : N) :
  server (this w) = None ->
  let c := this (listening bound (fst (authorize sc port w))) in
  cfg c = cfg (this w)
  /\ scopes c = scopes (this (fst (authorize sc port w)))
  /\ scopes c = (if Js.truthy sc
                 then Js.show sc ++ SCOPE_SEPARATOR ++ DEFAULT_SCOPE
                 else DEFAULT_SCOPE)
  /\ has_auth_route (app c) = true.
Proof.
  intros H. unfold authorize, listening. rewrite H. simpl.
  repeat split. unfold has_auth_route. rewrite existsb_app. simpl.
  apply orb_true_r.
Qed.

End Scopes.

(** C7. An [authorize] call that starts a flow records as scope the
    caller's scopes, a space and [openid] when the caller gives a
    non-empty string, and [openid] alone when the caller gives nothing
    or the empty string; and the [scope] parameter of the URL that
    [/auth] then redirects to is that recorded scope.  (The authorization
    endpoint is taken without query or fragment of its own.) *)
Theorem authorize_records_scopes (w : world) (s : string) (port : option N)
        (bound : N) :
  server (this w) = None ->
  s <> "" ->
  Js.occurs "?" (authUri (cfg (this w))) = false ->
  Js.occurs "#" (authUri (cfg (this w))) = false ->
  let recorded sc := scopes (this (fst (authorize sc port w))) in
  let requested sc :=
    redirect_param "scope"
      (snd (get_auth (listening bound (fst (authorize sc port w))))) in
  recorded (Some s) = s ++ " " ++ "openid"
  /\ recorded None = "openid"
  /\ recorded (Some "") = "openid"
  /\ requested (Some s) = Some (s ++ " " ++ "openid")
  /\ requested None = Some "openid"
  /\ requested (Some "") = Some "openid".
Proof.
  intros Hidle Hs Hq Hf recorded requested.
  assert (R : forall sc,
             recorded sc = (if Js.truthy sc
                            then Js.show sc ++ SCOPE_SEPARATOR ++ DEFAULT_SCOPE
                            else DEFAULT_SCOPE)
             /\ requested sc = Some (recorded sc)).
  { intros sc. subst recorded requested. cbv beta.
    destruct (started_client w sc port bound Hidle) as (Hc & Hsc & Hv & Hr).
    split; [now rewrite <- Hsc|].
    rewrite get_auth_scope; rewrite ?Hc; auto. now rewrite Hsc. }
  destruct (R (Some s)) as [R1 Q1], (R None) as [R2 Q2],
           (R (Some "")) as [R3 Q3].
  rewrite Q1, Q2, Q3, R1, R2, R3.
  destruct s; [contradiction|]. repeat split.
Qed.

Lemma authorize_records_scopes_witness :
  server (this Demo.fresh) = None
  /\ "offline_access email" <> ""
  /\ Js.occurs "?" (authUri (cfg (this Demo.fresh))) = false
  /\ Js.occurs "#" (authUri (cfg (this Demo.fresh))) = false
  /\ (let recorded sc := scopes (this (fst (authorize sc None Demo.fresh))) in
      let requested sc :=
        redirect_param "scope"
          (snd (get_auth (listening 5555
                            (fst (authorize sc None Demo.fresh))))) in
      recorded (Some "offline_access email")
      = "offline_access email" ++ " " ++ "openid"
      /\ recorded None = "openid"
      /\ recorded (Some "") = "openid"
      /\ requested (Some "offline_access email")
         = Some ("offline_access email" ++ " " ++ "openid")
      /\ requested None = Some "openid"
      /\ requested (Some "") = Some "openid").
Proof.
  split; [reflexivity|]. split; [discriminate|].
  split; [reflexivity|]. split; [reflexivity|].
  apply (authorize_records_scopes Demo.fresh "offline_access email" None 5555);
    first [reflexivity | discriminate].
Defined.

(* ===================================================================== *)
(** ** Random strings *)
(* ===================================================================== *)

Section AsciiSets.

Lemma is_ascii_occurs (chars : string) (c : ascii) :
  Js.is_ascii chars = true -> Js.occurs c chars = true ->
  Js.is_ascii_char c = true.
Proof.
  induction chars as [|x r IH]; cbn [Js.is_ascii Js.occurs];
    [discriminate|].
  intros A O. apply andb_true_iff in A as [Ax Ar].
  apply orb_true_iff in O as [E|O]; [|exact (IH Ar O)].
  apply Ascii.eqb_eq in E. now subst.
Qed.

Lemma is_ascii_chars_in (chars s : string) :
  Js.is_ascii chars = true -> chars_in chars s = true ->
  Js.is_ascii s = true.
Proof.
  intros A. induction s as [|x r IH]; [reflexivity|].
  cbn [chars_in Js.is_ascii]. intros H.
  apply andb_true_iff in H as [Hx Hr].
  now rewrite (is_ascii_occurs chars x A Hx), (IH Hr).
Qed.

(** The two character sets the program draws from are ASCII. *)
Lemma program_sets_ascii :
  ascii_set None = true /\ Js.is_ascii default_chars = true
  /\ ascii_set (Some verifier_chars) = true.
Proof. repeat split. Qed.

End AsciiSets.

(** X1. For a character set of ASCII characters,
    [generateRandomString] returns exactly [length] characters, each
    taken from the character set in use: the one given, or the default
    lower-case letters and digits when none is given or the one given is
    empty.  The result is ASCII as well.  No hypothesis on the draws is
    needed. *)
Theorem generateRandomString_shape (length : nat) (charSet : option string)
        (e : nat -> N) (pos : nat) :
  ascii_set charSet = true ->
  let used := if Js.truthy charSet then Js.show charSet else default_chars in
  String.length (generateRandomString length charSet e pos) = length
  /\ chars_in used (generateRandomString length charSet e pos) = true
  /\ Js.is_ascii (generateRandomString length charSet e pos) = true
  /\ generateRandomString length (Some "") e pos
     = generateRandomString length None e pos
  /\ generateRandomString 0 charSet e pos = "".
Proof.
  intros A. cbv zeta. unfold generateRandomString.
  assert (H : (0 < String.length
                     (if Js.truthy charSet then Js.show charSet
                      else default_chars))%nat).
  { destruct charSet as [[|c r]|]; simpl; lia. }
  assert (U : Js.is_ascii (if Js.truthy charSet then Js.show charSet
                           else default_chars) = true).
  { destruct charSet as [[|c r]|]; try reflexivity. exact A. }
  destruct (random_chars_shape length _ e pos H) as [Hl Hc].
  repeat split; try assumption.
  exact (is_ascii_chars_in _ _ U Hc).
Qed.

Lemma generateRandomString_shape_witness :
  ascii_set (Some "abc-._~") = true
  /\ (let used :=
        if Js.truthy (Some "abc-._~") then Js.show (Some "abc-._~")
        else default_chars in
      String.length
        (generateRandomString 5 (Some "abc-._~") Demo.entropy0 0) = 5
      /\ chars_in used
           (generateRandomString 5 (Some "abc-._~") Demo.entropy0 0) = true
      /\ Js.is_ascii
           (generateRandomString 5 (Some "abc-._~") Demo.entropy0 0) = true
      /\ generateRandomString 5 (Some "") Demo.entropy0 0
         = generateRandomString 5 None Demo.entropy0 0
      /\ generateRandomString 0 (Some "abc-._~") Demo.entropy0 0 = "").
Proof.
  split; [reflexivity|].
  apply (generateRandomString_shape 5 (Some "abc-._~") Demo.entropy0 0).
  reflexivity.
Defined.

(* ===================================================================== *)
(** ** Form-encoded bodies *)
(* ===================================================================== *)

Section Forms.

Lemma append_nil_r (s : string) : s ++ "" = s.
Proof.
  induction s as [|x r IH]; [reflexivity|]. now rewrite append_cons, IH.
Qed.

Lemma key_ok_parts (k : string) :
  Form.key_ok k = true ->
  Js.occurs "=" k = false /\ Js.occurs "&" k = false
  /\ Js.occurs "#" k = false.
Proof.
  unfold Form.key_ok. rewrite !andb_true_iff, !negb_true_iff. tauto.
Qed.

Lemma pair_without (c : ascii) (kv : string * string) :
  Js.occurs c (fst kv) = false -> Ascii.eqb "=" c = false ->
  Js.uri_unreserved c = false -> c <> "%"%char ->
  Js.occurs c (Form.pair kv) = false.
Proof.
  intros Hk He Hu Hp. unfold Form.pair.
  rewrite occurs_app, Hk. cbn [Js.occurs orb].
  now rewrite He, encode_escapes.
Qed.

Lemma pairs_without_amp (kvs : list (string * string)) :
  Forall (fun kv => Form.key_ok (fst kv) = true) kvs ->
  Forall (fun x => Js.occurs "&" x = false) (List.map Form.pair kvs).
Proof.
  induction 1 as [|kv r Hk _ IH]; [constructor|].
  simpl. constructor; [|exact IH].
  apply key_ok_parts in Hk as (_ & Hk & _).
  apply pair_without; [exact Hk|reflexivity|reflexivity|discriminate].
Qed.

Lemma pairs_without_hash (kvs : list (string * string)) :
  Forall (fun kv => Form.key_ok (fst kv) = true) kvs ->
  Forall (fun x => Js.occurs "#" x = false) (List.map Form.pair kvs).
Proof.
  induction 1 as [|kv r Hk _ IH]; [constructor|].
  simpl. constructor; [|exact IH].
  apply key_ok_parts in Hk as (_ & _ & Hk).
  apply pair_without; [exact Hk|reflexivity|reflexivity|discriminate].
Qed.

Lemma split_render (kvs : list (string * string)) :
  kvs <> [] ->
  Forall (fun kv => Form.key_ok (fst kv) = true) kvs ->
  Js.split "&" (Form.render kvs) = List.map Form.pair kvs.
Proof.
  intros Hne Hk. unfold Form.render. apply split_join.
  - destruct kvs; [contradiction|discriminate].
  - now apply pairs_without_amp.
Qed.

Lemma first_pair_pairs (name : string) (kvs : list (string * string)) :
  Forall (fun kv => Form.key_ok (fst kv) = true) kvs ->
  Js.first_pair name (List.map Form.pair kvs)
  = option_map Js.encodeURIComponent (Form.assoc name kvs).
Proof.
  induction 1 as [|[k v] r Hk _ IH]; [reflexivity|].
  apply key_ok_parts in Hk as (Hk & _ & _). simpl in Hk.
  cbn [List.map Form.assoc]. unfold Form.pair at 1. cbn [fst snd].
  destruct (String.eqb_spec k name) as [->|Hne].
  - now rewrite first_pair_hit.
  - now rewrite first_pair_skip.
Qed.

(** Reading back what was rendered: a field holds the value it was
    given, whatever characters the value has. *)
Lemma field_render (name : string) (kvs : list (string * string)) :
  kvs <> [] ->
  Forall (fun kv => Form.key_ok (fst kv) = true) kvs ->
  Form.field name (Form.render kvs) = Form.assoc name kvs.
Proof.
  intros Hne Hk. unfold Form.field.
  rewrite split_render, first_pair_pairs by assumption.
  destruct (Form.assoc name kvs); [apply decode_encode|reflexivity].
Qed.

Lemma names_render (kvs : list (string * string)) :
  kvs <> [] ->
  Forall (fun kv => Form.key_ok (fst kv) = true) kvs ->
  Form.names (Form.render kvs) = List.map fst kvs.
Proof.
  intros Hne Hk. unfold Form.names. rewrite split_render by assumption.
  clear Hne. induction Hk as [|kv r Hkv _ IH]; [reflexivity|].
  cbn [List.map]. rewrite IH. f_equal.
  apply key_ok_parts in Hkv as (Hkv & _ & _).
  unfold Form.pair. now apply before_app.
Qed.

(** The query of a URL built as endpoint, [?], rendered pairs. *)
Lemma query_param_render (name base : string)
      (kvs : list (string * string)) :
  kvs <> [] ->
  Forall (fun kv => Form.key_ok (fst kv) = true) kvs ->
  Js.occurs "?" base = false -> Js.occurs "#" base = false ->
  Js.query_param name (base ++ String "?" (Form.render kvs))
  = Form.assoc name kvs.
Proof.
  intros Hne Hk Hq Hf. unfold Js.query_param.
  rewrite before_without.
  - rewrite (after_app _ _ _ Hq). now apply field_render.
  - rewrite occurs_app, Hf. cbn [Js.occurs orb].
    unfold Form.render. rewrite occurs_join; [reflexivity|discriminate|].
    now apply pairs_without_hash.
Qed.

Lemma refresh_body_pairs (c : config) (tok : string) :
  fetch_body (refresh_request c tok)
  = Form.render ([("grant_type", "refresh_token"); ("refresh_token", tok);
                  ("client_id", clientId c)] ++ Form.secret_pairs c).
Proof.
  unfold refresh_request, secret_field, Form.secret_pairs. cbn [fetch_body].
  destruct (Js.truthy (clientSecret c)); [reflexivity|].
  now rewrite append_nil_r.
Qed.

Lemma revoke_body_pairs (c : config) (tok ty : string) :
  fetch_body (revoke_request c tok ty)
  = Form.render ([("token", tok); ("token_type_hint", ty);
                  ("client_id", clientId c)] ++ Form.secret_pairs c).
Proof.
  unfold revoke_request, secret_field, Form.secret_pairs. cbn [fetch_body].
  destruct (Js.truthy (clientSecret c)); [reflexivity|].
  now rewrite append_nil_r.
Qed.

Lemma exchange_body_pairs (c : client) (code : string) (v : Js.prop_value) :
  fetch_body (exchange_request c code v)
  = Form.render
      ([("grant_type", "authorization_code"); ("client_id", clientId (cfg c))]
       ++ Form.secret_pairs (cfg c)
       ++ [("code", code); ("code_verifier", Js.to_string v);
           ("redirect_uri",
            Js.show_nullable (serverAddress c) ++ "/callback")]).
Proof.
  unfold exchange_request, secret_field, Form.secret_pairs. cbn [fetch_body].
  destruct (Js.truthy (clientSecret (cfg c))); reflexivity.
Qed.

Lemma authorization_url_render (c : client) (challenge state : string) :
  authorization_url c challenge state
  = authUri (cfg c)
    ++ String "?"
         (Form.render
            [("client_id", clientId (cfg c));
             ("redirect_uri",
              Js.show_nullable (serverAddress c) ++ "/callback");
             ("response_type", "code"); ("scope", scopes c);
             ("code_challenge", challenge);
             ("code_challenge_method", "S256"); ("prompt", "login");
             ("state", state)]).
Proof. reflexivity. Qed.

Lemma secret_pairs_keys (c : config) :
  Forall (fun kv => Form.key_ok (fst kv) = true) (Form.secret_pairs c).
Proof.
  unfold Form.secret_pairs. destruct (Js.truthy (clientSecret c));
    repeat constructor.
Qed.

End Forms.

Ltac keys_ok :=
  repeat first [ apply Forall_app_2 | apply secret_pairs_keys
               | apply List.Forall_cons; [reflexivity|]
               | apply List.Forall_nil ].

(** X2. The body of a refresh request has the fields [grant_type] (with
    value [refresh_token]), [refresh_token], [client_id], and then
    [client_secret] exactly when a non-empty secret is configured; read
    back, they hold the token, the client id and the secret as given,
    whatever characters these contain.  The request is a form-encoded
    POST to [tokenUri]. *)
Theorem refresh_request_fields (c : config) (refreshToken : string) :
  let body := fetch_body (refresh_request c refreshToken) in
  Form.names body
  = (["grant_type"; "refresh_token"; "client_id"]
     ++ if Js.truthy (clientSecret c) then ["client_secret"] else [])%list
  /\ Form.field "grant_type" body = Some "refresh_token"
  /\ Form.field "refresh_token" body = Some refreshToken
  /\ Form.field "client_id" body = Some (clientId c)
  /\ Form.field "client_secret" body
     = (if Js.truthy (clientSecret c) then clientSecret c else None)
  /\ fetch_url (refresh_request c refreshToken) = tokenUri c
  /\ fetch_method (refresh_request c refreshToken) = "POST".
Proof.
  cbv zeta. rewrite refresh_body_pairs.
  rewrite names_render, !field_render by (discriminate || keys_ok).
  unfold Form.secret_pairs.
  destruct (clientSecret c) as [[|x r]|]; repeat split.
Qed.

(** X3. The body of a revocation request has the fields [token],
    [token_type_hint], [client_id], and then [client_secret] exactly
    when a non-empty secret is configured; read back, they hold the
    token, the hint, the client id and the secret as given.  The request
    is a form-encoded POST to [revokeUri]. *)
Theorem revoke_request_fields (c : config) (token tokenType : string) :
  let body := fetch_body (revoke_request c token tokenType) in
  Form.names body
  = (["token"; "token_type_hint"; "client_id"]
     ++ if Js.truthy (clientSecret c) then ["client_secret"] else [])%list
  /\ Form.field "token" body = Some token
  /\ Form.field "token_type_hint" body = Some tokenType
  /\ Form.field "client_id" body = Some (clientId c)
  /\ Form.field "client_secret" body
     = (if Js.truthy (clientSecret c) then clientSecret c else None)
  /\ fetch_url (revoke_request c token tokenType) = revokeUri c
  /\ fetch_method (revoke_request c token tokenType) = "POST".
Proof.
  cbv zeta. rewrite revoke_body_pairs.
  rewrite names_render, !field_render by (discriminate || keys_ok).
  unfold Form.secret_pairs.
  destruct (clientSecret c) as [[|x r]|]; repeat split.
Qed.

(* ===================================================================== *)
(** ** The shape of digests, challenges and issued values *)
(* ===================================================================== *)

Section Shapes.

Lemma blocks_length (n : nat) (h bs : list Z) :
  List.length h = 8%nat -> List.length (Sha256.blocks n h bs) = 8%nat.
Proof.
  revert h bs. induction n as [|m IH]; intros h bs Hh; [exact Hh|].
  destruct bs as [|b r]; [exact Hh|].
  cbn [Sha256.blocks]. apply IH. reflexivity.
Qed.

Lemma be_bytes_range (n : nat) (x : Z) :
  Forall (fun b => (0 <= b < 256)%Z) (Sha256.be_bytes n x).
Proof.
  induction n as [|m IH]; [constructor|].
  cbn [Sha256.be_bytes]. constructor; [|exact IH].
  apply Z.mod_pos_bound. lia.
Qed.

Lemma be_bytes_length (n : nat) (x : Z) :
  List.length (Sha256.be_bytes n x) = n.
Proof. induction n as [|m IH]; [reflexivity|]. simpl. now rewrite IH. Qed.

(** A SHA-256 digest is 32 bytes. *)
Lemma digest_bytes_shape (msg : list Z) :
  List.length (Sha256.digest_bytes msg) = 32%nat
  /\ Forall (fun b => (0 <= b < 256)%Z) (Sha256.digest_bytes msg).
Proof.
  unfold Sha256.digest_bytes.
  pose proof (blocks_length (List.length (Sha256.pad msg))
                Sha256.initial_hash (Sha256.pad msg) eq_refl) as H.
  destruct (Sha256.blocks _ _ _) as [|a [|b [|c [|d [|e [|f [|g [|h [|]]]]]]]]];
    try discriminate H.
  split.
  - cbn [List.map List.concat]. rewrite !length_app, !be_bytes_length.
    reflexivity.
  - cbn [List.map List.concat].
    repeat (apply Forall_app_2; [apply be_bytes_range|]). constructor.
Qed.

Lemma sextet_url (x : Z) :
  Js.occurs (Form.url_char (Base64.sextet x)) Form.base64url_chars = true
  /\ Ascii.eqb (Form.url_char (Base64.sextet x)) "=" = false.
Proof.
  unfold Base64.sextet.
  assert (H : (Z.to_nat (x mod 64) < 64)%nat).
  { pose proof (Z.mod_pos_bound x 64). lia. }
  revert H. generalize (Z.to_nat (x mod 64)) as n. intros n H.
  do 64 (destruct n as [|n]; [split; reflexivity|]). lia.
Qed.

Lemma replacements_map (s : string) :
  Js.replace_all "+" "-" (Js.replace_all "/" "_" s)
  = Js.map_chars Form.url_char s.
Proof.
  induction s as [|x r IH]; [reflexivity|].
  cbn [Js.replace_all Js.map_chars]. now rewrite IH.
Qed.

Lemma replace_eq_tail_keep (x : ascii) (r : string) :
  Ascii.eqb x "=" = false ->
  Js.replace_eq_tail (String x r) = String x (Js.replace_eq_tail r).
Proof.
  intros H. rewrite replace_eq_tail_cons. cbn [Js.eq_star_end].
  now rewrite H.
Qed.

(** Characters that [encodeURIComponent] leaves alone. *)
Lemma encode_unreserved (chars s : string) :
  (forall c, Js.occurs c chars = true -> Js.uri_unreserved c = true) ->
  chars_in chars s = true -> Js.encodeURIComponent s = s.
Proof.
  intros U. induction s as [|x r IH]; [reflexivity|].
  cbn [chars_in Js.encodeURIComponent]. intros H.
  apply andb_true_iff in H as [Hx Hr].
  now rewrite (U x Hx), (IH Hr).
Qed.

Lemma chars_in_mono (a b s : string) :
  (forall c, Js.occurs c a = true -> Js.occurs c b = true) ->
  chars_in a s = true -> chars_in b s = true.
Proof.
  intros M. induction s as [|x r IH]; [reflexivity|].
  cbn [chars_in]. intros H. apply andb_true_iff in H as [Hx Hr].
  now rewrite (M x Hx), (IH Hr).
Qed.

Lemma chars_in_cons (chars : string) (c : ascii) (r : string) :
  Js.occurs c chars = true -> chars_in chars r = true ->
  chars_in chars (String c r) = true.
Proof. intros Hc Hr. cbn [chars_in]. now rewrite Hc, Hr. Qed.

Ltac each_char c :=
  destruct c as [[] [] [] [] [] [] [] []]; vm_compute;
  first [reflexivity | discriminate | congruence].

Lemma base64url_unreserved (c : ascii) :
  Js.occurs c Form.base64url_chars = true -> Js.uri_unreserved c = true.
Proof. each_char c. Qed.

Lemma rfc7636_unreserved (c : ascii) :
  Js.occurs c Form.rfc7636_chars = true -> Js.uri_unreserved c = true.
Proof. each_char c. Qed.

Lemma verifier_chars_rfc7636 (c : ascii) :
  Js.occurs c verifier_chars = true -> Js.occurs c Form.rfc7636_chars = true.
Proof. each_char c. Qed.

Lemma default_chars_unreserved (c : ascii) :
  Js.occurs c default_chars = true -> Js.uri_unreserved c = true.
Proof. each_char c. Qed.

End Shapes.

Ltac known_length l H :=
  repeat (destruct l as [|? l]; [discriminate H|]);
  try discriminate H.

(** X4. Whatever the verifier, the code challenge is 43 characters of
    URL-safe base64 (letters, digits, [-] and [_]), and so goes into a
    query string unchanged by [encodeURIComponent]. *)
Theorem codeChallenge_shape (V : string) :
  String.length (codeChallenge V) = 43%nat
  /\ chars_in Form.base64url_chars (codeChallenge V) = true
  /\ Js.encodeURIComponent (codeChallenge V) = codeChallenge V.
Proof.
  assert (H : String.length (codeChallenge V) = 43%nat
              /\ chars_in Form.base64url_chars (codeChallenge V) = true).
  { unfold codeChallenge, sha256_base64, Sha256.digest.
    rewrite replacements_map.
    destruct (digest_bytes_shape (Sha256.bytes_of_string V)) as [Hl _].
    revert Hl. generalize (Sha256.digest_bytes (Sha256.bytes_of_string V)).
    intros l Hl.
    do 32 (destruct l as [|? l]; [discriminate Hl|]).
    destruct l; [|discriminate Hl].
    cbn [Base64.encode Js.map_chars].
    repeat (rewrite replace_eq_tail_keep by apply sextet_url).
    change (Js.replace_eq_tail (String (Form.url_char "=") "")) with "".
    split; [reflexivity|].
    repeat (apply chars_in_cons; [apply sextet_url|]).
    reflexivity. }
  destruct H as [Hl Hc]. repeat split; try assumption.
  apply encode_unreserved with Form.base64url_chars; [|exact Hc].
  exact base64url_unreserved.
Qed.

(* ===================================================================== *)
(** ** The [/auth] handler *)
(* ===================================================================== *)

Section Issuing.

Lemma next_verifier_shape (w : world) :
  String.length (next_verifier w) = 80%nat
  /\ chars_in Form.rfc7636_chars (next_verifier w) = true.
Proof.
  unfold next_verifier, generateRandomString.
  change (Js.truthy (Some verifier_chars)) with true. cbv iota.
  destruct (random_chars_shape CODE_VERIFIER_LENGTH verifier_chars
              (entropy w) (drawn w)) as [Hl Hc].
  { vm_compute. lia. }
  split; [exact Hl|].
  apply chars_in_mono with verifier_chars; [|exact Hc].
  exact verifier_chars_rfc7636.
Qed.

Lemma next_state_shape (w : world) :
  String.length (next_state w) = 20%nat
  /\ chars_in default_chars (next_state w) = true.
Proof.
  pose proof (next_state_token w) as H. unfold is_state_token in H.
  apply andb_true_iff in H as [Hl Hc]. apply Nat.eqb_eq in Hl. now split.
Qed.

Lemma auth_handler_store (w : world) :
  sessionStore (this (fst (auth_handler w)))
  = <[next_state w := next_verifier w]> (sessionStore (this w)).
Proof.
  unfold auth_handler. cbn [fst]. unfold Js.set.
  now rewrite (state_token_not_proto _ (next_state_token w)).
Qed.

End Issuing.

(** X5. A hit on [/auth] answers 302 with the cookie [session_state] set
    to a fresh state of 20 lower-case letters and digits, and stores
    under that state a verifier of 80 characters from the set RFC 7636
    allows.  Every other entry of the session store is as before, and so
    are the scopes, the listener, the address, the handlers, the promises
    and the effects performed; the hit consumes 100 draws. *)
Theorem auth_handler_issues (w : world) (k : string) :
  let w1 := fst (auth_handler w) in
  let res := snd (auth_handler w) in
  let st := next_state w in
  status res = 302%N
  /\ set_cookie res = Some ("session_state", st)
  /\ sessionStore (this w1) !! st = Some (next_verifier w)
  /\ String.length st = 20%nat
  /\ chars_in "abcdefghijklmnopqrstuvwxyz0123456789" st = true
  /\ String.length (next_verifier w) = 80%nat
  /\ chars_in Form.rfc7636_chars (next_verifier w) = true
  /\ (if String.eqb k st then True
      else sessionStore (this w1) !! k = sessionStore (this w) !! k)
  /\ set_sessionStore (sessionStore (this w)) (this w1) = this w
  /\ promises w1 = promises w
  /\ trace w1 = trace w
  /\ drawn w1 = (drawn w + 100)%nat.
Proof.
  cbv zeta.
  destruct (next_state_shape w) as [Hsl Hsc].
  destruct (next_verifier_shape w) as [Hvl Hvc].
  rewrite auth_handler_store.
  repeat split; try assumption.
  - apply lookup_insert_eq.
  - destruct (String.eqb_spec k (next_state w)) as [_|Hne]; [exact I|].
    apply lookup_insert_ne. congruence.
  - unfold auth_handler. cbn [fst]. now destruct w as [[] ? ? ? ? ? ?].
Qed.

(** X6. The URL [/auth] redirects to carries, besides the scope,
    [client_id] (the configured id), [redirect_uri] (the listener's
    address followed by [/callback]), [response_type=code],
    [code_challenge] (the challenge of the verifier just stored),
    [code_challenge_method=S256], [prompt=login] and [state] (the value
    of the cookie), each read back exactly whatever characters the
    configured values contain.  (The authorization endpoint is taken
    without query or fragment of its own.) *)
Theorem auth_handler_redirect (w : world) :
  Js.occurs "?" (authUri (cfg (this w))) = false ->
  Js.occurs "#" (authUri (cfg (this w))) = false ->
  let res := snd (auth_handler w) in
  redirect_param "client_id" res = Some (clientId (cfg (this w)))
  /\ redirect_param "redirect_uri" res
     = Some (Js.show_nullable (serverAddress (this w)) ++ "/callback")
  /\ redirect_param "response_type" res = Some "code"
  /\ redirect_param "code_challenge" res
     = Some (codeChallenge (next_verifier w))
  /\ redirect_param "code_challenge_method" res = Some "S256"
  /\ redirect_param "prompt" res = Some "login"
  /\ redirect_param "state" res = Some (next_state w)
  /\ set_cookie res = Some ("session_state", next_state w).
Proof.
  intros Hq Hf. cbv zeta. unfold auth_handler, redirect_param.
  cbn [snd location redirect set_cookie].
  rewrite authorization_url_render.
  rewrite !query_param_render by (assumption || discriminate || keys_ok).
  repeat split.
Qed.

Lemma auth_handler_redirect_witness :
  Js.occurs "?" (authUri (cfg (this Demo.listening0))) = false
  /\ Js.occurs "#" (authUri (cfg (this Demo.listening0))) = false
  /\ (let res := snd (auth_handler Demo.listening0) in
      redirect_param "client_id" res
      = Some (clientId (cfg (this Demo.listening0)))
      /\ redirect_param "redirect_uri" res
         = Some (Js.show_nullable (serverAddress (this Demo.listening0))
                 ++ "/callback")
      /\ redirect_param "response_type" res = Some "code"
      /\ redirect_param "code_challenge" res
         = Some (codeChallenge (next_verifier Demo.listening0))
      /\ redirect_param "code_challenge_method" res = Some "S256"
      /\ redirect_param "prompt" res = Some "login"
      /\ redirect_param "state" res = Some (next_state Demo.listening0)
      /\ set_cookie res = Some ("session_state", next_state Demo.listening0)).
Proof.
  split; [reflexivity|]. split; [reflexivity|].
  apply (auth_handler_redirect Demo.listening0); reflexivity.
Defined.

(* ===================================================================== *)
(** ** From [/auth] to the token request *)
(* ===================================================================== *)

Section Binding.

(** The provider's redirect back, for the state a hit on [/auth] in [w]
    issues. *)
Lemma callback_after_auth (w : world) (flow : nat) (code : string) :
  code <> "" ->
  let st := next_state w in
  let w1 := fst (auth_handler w) in
  let request :=
    exchange_request (this w) code (Js.Own (next_verifier w)) in
  callback_begin flow (HttpRequest (Some st) (Some code) (Some st)) w1
  = Awaiting
      (emit (Fetch request)
         (with_client
            (set_sessionStore (base.delete st (sessionStore (this w1)))) w1))
      request.
Proof.
  intros Hcode. cbv zeta.
  pose proof (auth_handler_store w) as Hstore.
  assert (Hlook : sessionStore (this (fst (auth_handler w))) !! next_state w
                  = Some (next_verifier w)).
  { rewrite Hstore. apply lookup_insert_eq. }
  assert (Hne : next_state w <> "").
  { destruct (next_state_shape w) as [Hl _]. intros E. rewrite E in Hl.
    discriminate. }
  unfold callback_begin.
  assert (Hvalid : callback_valid
                     (HttpRequest (Some (next_state w)) (Some code)
                                  (Some (next_state w)))
                     (this (fst (auth_handler w))) = true).
  { apply callback_valid_conditions. exists (next_state w), code.
    cbn [query_state query_code cookie_session_state]. eauto 10. }
  rewrite Hvalid. cbn [query_state query_code Js.show].
  unfold Js.get. rewrite Hlook. unfold Js.delete.
  f_equal.
Qed.

End Binding.

(** X7. PKCE binding. After a hit on [/auth], the provider's redirect
    back with the issued state, the cookie and a code makes the handler
    post to [tokenUri] a body whose [code_verifier] is the verifier whose
    challenge went out in the [/auth] redirect, whose [code] is the code
    received, and whose [client_id] and [redirect_uri] are those of the
    [/auth] redirect; by then the state has left the session store. *)
Theorem pkce_binding (w : world) (flow : nat) (code : string) :
  code <> "" ->
  Js.occurs "?" (authUri (cfg (this w))) = false ->
  Js.occurs "#" (authUri (cfg (this w))) = false ->
  let w1 := fst (auth_handler w) in
  let res := snd (auth_handler w) in
  let st := next_state w in
  exists w2 request V,
    callback_begin flow (HttpRequest (Some st) (Some code) (Some st)) w1
    = Awaiting w2 request
    /\ fetch_url request = tokenUri (cfg (this w))
    /\ Form.field "grant_type" (fetch_body request)
       = Some "authorization_code"
    /\ Form.field "code" (fetch_body request) = Some code
    /\ Form.field "code_verifier" (fetch_body request) = Some V
    /\ redirect_param "code_challenge" res = Some (codeChallenge V)
    /\ Form.field "client_id" (fetch_body request)
       = redirect_param "client_id" res
    /\ Form.field "redirect_uri" (fetch_body request)
       = redirect_param "redirect_uri" res
    /\ sessionStore (this w2) !! st = None
    /\ trace w2 = (trace w ++ [Fetch request])%list.
Proof.
  intros Hcode Hq Hf. cbv zeta.
  eexists. eexists. exists (next_verifier w).
  split; [now apply callback_after_auth|].
  unfold auth_handler, redirect_param.
  cbn [fst snd location redirect].
  rewrite authorization_url_render.
  rewrite !query_param_render by (assumption || discriminate || keys_ok).
  rewrite exchange_body_pairs.
  rewrite !field_render by (discriminate || keys_ok).
  unfold Form.secret_pairs.
  destruct (Js.truthy (clientSecret (cfg (this w))));
    repeat split; try apply lookup_delete_eq.
Qed.

Lemma pkce_binding_witness :
  "auth-code" <> ""
  /\ Js.occurs "?" (authUri (cfg (this Demo.listening0))) = false
  /\ Js.occurs "#" (authUri (cfg (this Demo.listening0))) = false
  /\ (let w1 := fst (auth_handler Demo.listening0) in
      let res := snd (auth_handler Demo.listening0) in
      let st := next_state Demo.listening0 in
      exists w2 request V,
        callback_begin 0 (HttpRequest (Some st) (Some "auth-code") (Some st))
                       w1
        = Awaiting w2 request
        /\ fetch_url request = tokenUri (cfg (this Demo.listening0))
        /\ Form.field "grant_type" (fetch_body request)
           = Some "authorization_code"
        /\ Form.field "code" (fetch_body request) = Some "auth-code"
        /\ Form.field "code_verifier" (fetch_body request) = Some V
        /\ redirect_param "code_challenge" res = Some (codeChallenge V)
        /\ Form.field "client_id" (fetch_body request)
           = redirect_param "client_id" res
        /\ Form.field "redirect_uri" (fetch_body request)
           = redirect_param "redirect_uri" res
        /\ sessionStore (this w2) !! st = None
        /\ trace w2 = (trace Demo.listening0 ++ [Fetch request])%list).
Proof.
  split; [discriminate|]. split; [reflexivity|]. split; [reflexivity|].
  apply (pkce_binding Demo.listening0 0 "auth-code");
    first [discriminate | reflexivity].
Defined.

(* ===================================================================== *)
(** ** Promises over a run *)
(* ===================================================================== *)

Section Settling.

Lemma settle_other (flow f : nat) (p : promise) (w : world) :
  f <> flow -> promises (settle flow p w) !! f = promises w !! f.
Proof.
  intros Hne. unfold settle.
  destruct (promises w !! flow) as [[| |]|]; try reflexivity.
  cbn [promises set_promises]. apply list_lookup_insert_ne. congruence.
Qed.


Lemma settle_pending (flow : nat) (p : promise) (w : world) :
  promises w !! flow = Some Pending ->
  promises (settle flow p w) !! flow = Some p.
Proof.
  intros H. unfold settle. rewrite H. cbn [promises set_promises].
  apply list_lookup_insert_eq. now apply lookup_lt_Some with Pending.
Qed.

End Settling.

(* ===================================================================== *)
(** ** Which handler serves [/callback] *)
(* ===================================================================== *)

Section FirstFlow.

Lemma callback_route_app (a b : list route) :
  callback_route (a ++ b)
  = match callback_route a with
    | Some f => Some f
    | None => callback_route b
    end.
Proof.
  induction a as [|[|f] r IH]; [reflexivity|exact IH|reflexivity].
Qed.

Lemma first_flow_new (c : config) (e : nat -> N) :
  Runs.first_flow_only (new_world c e).
Proof. split; [reflexivity|constructor|]. intros f p _ H. discriminate. Qed.

Lemma first_flow_settle (p : promise) (w : world) :
  Runs.first_flow_only w -> Runs.first_flow_only (close (settle 0 p w)).
Proof.
  intros [R S P]. split.
  - rewrite close_client, close_promises, settle_this. cbn [app set_server].
    destruct (callback_route (app (this w))); [exact R|].
    unfold settle. rewrite R. exact R.
  - unfold close, settle.
    destruct (promises w !! 0%nat) as [[| |]|];
      destruct (server (this _)); exact S.
  - intros f q Hf. rewrite close_promises, settle_other by exact Hf.
    now apply P.
Qed.

Lemma remove_at_Forall {A : Type} (P : A -> Prop) (i : nat) (l : list A) :
  Forall P l -> Forall P (remove_at i l).
Proof.
  intros H. revert i. induction H as [|x r Hx Hr IH]; intros i.
  - destruct i; constructor.
  - destruct i as [|j]; cbn [remove_at]; [assumption|].
    constructor; [exact Hx|apply IH].
Qed.

Lemma first_flow_exec (o : op) (w : world) :
  Runs.first_flow_only w -> Runs.first_flow_only (exec o w).
Proof.
  intros F. pose proof F as [R S P]. destruct o; cbn [exec].
  - unfold authorize. destruct (server (this w)); cbn [fst]; [exact F|].
    split; cbn.
    + rewrite callback_route_app.
      destruct (callback_route (app (this w))); [exact R|].
      cbn. now rewrite R.
    + exact S.
    + intros f p Hf Hp. apply lookup_app_Some in Hp as [Hp|[_ Hp]].
      * now apply (P f).
      * apply list_elem_of_lookup_2, list_elem_of_singleton in Hp.
        exact Hp.
  - unfold listening. destruct (server (this w)); [|exact F].
    split; assumption.
  - unfold close. destruct (server (this w)); [|exact F]. split; assumption.
  - unfold get_auth. destruct (has_auth_route (app (this w))); [|exact F].
    split; assumption.
  - unfold get_callback.
    destruct (callback_route (app (this w))) as [flow|] eqn:E; [|exact F].
    subst flow. unfold callback_begin.
    destruct (callback_valid req (this w)).
    + split; cbn; [now rewrite E| |exact P].
      apply Forall_app_2; [exact S|]. now constructor.
    + now apply first_flow_settle.
  - destruct (suspended w !! i) as [flow|] eqn:E; [|exact F].
    assert (flow = 0%nat) as ->.
    { rewrite Forall_forall in S. apply S.
      apply list_elem_of_lookup. eauto. }
    destruct (callback_resume_world 0 r
                (set_suspended (remove_at i (suspended w)) w)) as [p ->].
    apply first_flow_settle. split; cbn; [exact R| |exact P].
    now apply remove_at_Forall.
Qed.

Lemma reachable_first_flow (w : world) :
  reachable w -> Runs.first_flow_only w.
Proof.
  intros (c & e & ops & ->).
  assert (H : forall w0, Runs.first_flow_only w0 ->
                         Runs.first_flow_only (exec_all ops w0)).
  { induction ops as [|o r IH]; intros w0 F; [exact F|].
    cbn [exec_all fold_left]. apply IH, first_flow_exec, F. }
  apply H, first_flow_new.
Qed.

End FirstFlow.

(** X9. On one client, [/callback] is always served by the handler the
    first accepted [authorize] registered: in every run, the first
    [/callback] layer of the stack belongs to flow 0, and the promise of
    every later flow is still pending, whatever requests and answers
    have come in.  A second [authorize] on the same client therefore
    returns a promise that no [/callback] request settles. *)
Theorem later_flows_never_settle (w : world) (f : nat) (p : promise) :
  reachable w ->
  f <> 0%nat ->
  promises w !! f = Some p ->
  p = Pending
  /\ match callback_route (app (this w)) with
     | Some flow => flow = 0%nat
     | None => True
     end.
Proof.
  intros Hr Hf Hp. destruct (reachable_first_flow w Hr) as [R _ P].
  split; [now apply (P f)|].
  destruct (callback_route (app (this w))); [exact R|exact I].
Qed.

Lemma later_flows_never_settle_witness :
  reachable Scenario.second_login
  /\ 1%nat <> 0%nat
  /\ promises Scenario.second_login !! 1%nat = Some Pending
  /\ (Pending = Pending
      /\ match callback_route (app (this Scenario.second_login)) with
         | Some flow => flow = 0%nat
         | None => True
         end).
Proof.
  assert (R : reachable Scenario.second_login).
  { exists Demo.config0, Demo.entropy0,
      ([Authorize None None; Listening 5555; Close]
       ++ [Authorize None None; Listening 5555]
       ++ [GetAuth;
           GetCallback
             (Runs.redirect_back
                (exec_all [Authorize None None; Listening 5555]
                   (exec_all [Authorize None None; Listening 5555; Close]
                             Demo.fresh))
                "auth-code");
           FetchDone 0 (Response 200 (Json Demo.tokens0))])%list.
    unfold exec_all. rewrite !fold_left_app. reflexivity. }
  assert (H : promises Scenario.second_login !! 1%nat = Some Pending)
    by (vm_compute; reflexivity).
  split; [exact R|]. split; [discriminate|]. split; [exact H|].
  apply (later_flows_never_settle Scenario.second_login 1 Pending R);
    [discriminate|exact H].
Defined.

(* ===================================================================== *)
(** ** Listeners over a run *)
(* ===================================================================== *)

Section ListenerAccounting.

Lemma open_listeners_emit (e : event) (w : world) :
  Listeners.open_listeners (trace (emit e w))
  = Listeners.after_event (Listeners.open_listeners (trace w)) e.
Proof.
  unfold Listeners.open_listeners, emit. cbn [trace].
  now rewrite fold_left_app.
Qed.

Ltac same_trace w :=
  match goal with
  | |- context [Listeners.open_listeners (trace ?x)] =>
      change (trace x) with (trace w)
  end.

Lemma accounted_close (w : world) :
  Listeners.open_listeners (trace w) = Listeners.held (this w) ->
  Listeners.open_listeners (trace (close w)) = Listeners.held (this (close w)).
Proof.
  intros H. unfold close. destruct (server (this w)) as [h|] eqn:E; [|exact H].
  rewrite open_listeners_emit. same_trace w.
  rewrite H. unfold Listeners.held. rewrite E. cbn.
  now rewrite Nat.eqb_refl.
Qed.

Lemma accounted_settle (flow : nat) (p : promise) (w : world) :
  Listeners.open_listeners (trace w) = Listeners.held (this w) ->
  Listeners.open_listeners (trace (settle flow p w))
  = Listeners.held (this (settle flow p w)).
Proof. now rewrite settle_trace, settle_this. Qed.

Lemma accounted_exec (o : op) (w : world) :
  Listeners.open_listeners (trace w) = Listeners.held (this w) ->
  Listeners.open_listeners (trace (exec o w))
  = Listeners.held (this (exec o w)).
Proof.
  intros H. destruct o; cbn [exec].
  - unfold authorize. destruct (server (this w)) eqn:E; cbn [fst]; [exact H|].
    rewrite open_listeners_emit. same_trace w.
    rewrite H. unfold Listeners.held. rewrite E. reflexivity.
  - unfold listening. destruct (server (this w)) eqn:E; [|exact H].
    rewrite open_listeners_emit. same_trace w. rewrite H.
    unfold Listeners.held. cbn. now rewrite E.
  - now apply accounted_close.
  - unfold get_auth. destruct (has_auth_route (app (this w))); exact H.
  - unfold get_callback.
    destruct (callback_route (app (this w))) as [flow|]; [|exact H].
    unfold callback_begin. destruct (callback_valid req (this w)).
    + change (trace (set_suspended ?l ?x)) with (trace x).
      rewrite open_listeners_emit. same_trace w. exact H.
    + now apply accounted_close, accounted_settle.
  - destruct (suspended w !! i) as [flow|]; [|exact H].
    destruct (callback_resume_world flow r
                (set_suspended (remove_at i (suspended w)) w)) as [p ->].
    now apply accounted_close, accounted_settle.
Qed.

End ListenerAccounting.

(** X10. No listener leaks. In every run of a client, the listeners that
    were opened and not yet closed are exactly the one held in
    [this.server]: at most one listener is open at any time, and none is
    open once the [server] handle is null (after [close] or after a
    [/callback] handler has finished). *)
Theorem listeners_accounted (w : world) :
  reachable w ->
  Listeners.open_listeners (trace w) = Listeners.held (this w)
  /\ (List.length (Listeners.open_listeners (trace w)) <= 1)%nat.
Proof.
  intros (c & e & ops & ->).
  assert (H : forall w0,
             Listeners.open_listeners (trace w0) = Listeners.held (this w0) ->
             Listeners.open_listeners (trace (exec_all ops w0))
             = Listeners.held (this (exec_all ops w0))).
  { induction ops as [|o r IH]; intros w0 A; [exact A|].
    cbn [exec_all fold_left]. apply IH, accounted_exec, A. }
  specialize (H (new_world c e) eq_refl). split; [exact H|].
  rewrite H. unfold Listeners.held.
  destruct (server _); cbn; lia.
Qed.

Lemma listeners_accounted_witness :
  reachable Scenario.second_login
  /\ (Listeners.open_listeners (trace Scenario.second_login)
      = Listeners.held (this Scenario.second_login)
      /\ (List.length (Listeners.open_listeners
                         (trace Scenario.second_login)) <= 1)%nat).
Proof.
  assert (R : reachable Scenario.second_login).
  { exists Demo.config0, Demo.entropy0,
      ([Authorize None None; Listening 5555; Close]
       ++ [Authorize None None; Listening 5555]
       ++ [GetAuth;
           GetCallback
             (Runs.redirect_back
                (exec_all [Authorize None None; Listening 5555]
                   (exec_all [Authorize None None; Listening 5555; Close]
                             Demo.fresh))
                "auth-code");
           FetchDone 0 (Response 200 (Json Demo.tokens0))])%list.
    unfold exec_all. rewrite !fold_left_app. reflexivity. }
  split; [exact R|].
  apply (listeners_accounted Scenario.second_login R).
Defined.

(* ===================================================================== *)
(** ** A login carried through *)
(* ===================================================================== *)

Section Login.

Lemma started_world (c : config) (e : nat -> N) (sc : option string)
      (port : option N) (bound : N) :
  let w := exec_all [Authorize sc port; Listening bound] (new_world c e) in
  app (this w) = [AuthRoute; CallbackRoute 0]
  /\ server (this w) = Some 0%nat
  /\ sessionStore (this w) = ∅
  /\ promises w = [Pending]
  /\ suspended w = []
  /\ cfg (this w) = c
  /\ serverAddress (this w)
     = Some ("http://" ++ HOST ++ ":" ++ Js.number_to_string bound)
  /\ trace w = [Listen 0 (match port with Some p => p | None => PORT end);
                OpenBrowser ("http://" ++ HOST ++ ":"
                             ++ Js.number_to_string bound ++ "/auth")].
Proof. cbv zeta. repeat split. Qed.

Lemma close_suspended (w : world) : suspended (close w) = suspended w.
Proof. unfold close. now destruct (server (this w)). Qed.

Lemma settle_suspended (flow : nat) (p : promise) (w : world) :
  suspended (settle flow p w) = suspended w.
Proof.
  unfold settle. destruct (promises w !! flow) as [[| |]|]; reflexivity.
Qed.

(** What the exchange leaves of a pending flow. *)
Lemma callback_resume_outcome (flow : nat) (r : fetch_result) (w : world) :
  promises w !! flow = Some Pending ->
  promises (fst (callback_resume flow r w)) !! flow
  = Some (Runs.exchange_outcome r).
Proof.
  intros H. destruct r as [st [j|m]|m]; cbn [callback_resume Runs.exchange_outcome].
  - destruct (N.eqb st 200); cbn [fst]; rewrite close_promises;
      now apply settle_pending.
  - cbn [fst]. rewrite close_promises. now apply settle_pending.
  - cbn [fst]. rewrite close_promises. now apply settle_pending.
Qed.

(** The world a login ends in, from a freshly constructed client. *)
Lemma login_end (c : config) (e : nat -> N) (sc : option string)
      (port : option N) (bound : N) (code : string) (r : fetch_result) :
  code <> "" ->
  let wb := exec_all [Authorize sc port; Listening bound] (new_world c e) in
  let w1 := fst (auth_handler wb) in
  let request :=
    exchange_request (this wb) code (Js.Own (next_verifier wb)) in
  Runs.login sc port bound code r (new_world c e)
  = fst (callback_resume 0 r
           (set_suspended []
              (emit (Fetch request)
                 (with_client
                    (set_sessionStore
                       (base.delete (next_state wb) (sessionStore (this w1))))
                    w1)))).
Proof.
  intros Hcode. cbv zeta. unfold Runs.login, Runs.redirect_back.
  set (wb := exec_all [Authorize sc port; Listening bound] (new_world c e)).
  unfold exec_all at 1. cbn [fold_left].
  change (exec GetAuth wb) with (fst (auth_handler wb)).
  unfold exec at 2. unfold get_callback.
  change (callback_route (app (this (fst (auth_handler wb)))))
    with (Some 0%nat).
  cbv iota beta.
  rewrite (callback_after_auth wb 0 code Hcode).
  reflexivity.
Qed.

(** The fields of the world in which the exchange is under way. *)
Lemma exchange_world (w : world) (request : fetch_request)
      (store : gmap string string) :
  let w2 :=
    set_suspended []
      (emit (Fetch request)
         (with_client (set_sessionStore store) (fst (auth_handler w)))) in
  promises w2 = promises w
  /\ trace w2 = (trace w ++ [Fetch request])%list
  /\ server (this w2) = server (this w)
  /\ sessionStore (this w2) = store
  /\ suspended w2 = [].
Proof. cbv zeta. repeat split. Qed.

(** What the end of the exchange leaves, from the fields of the world
    in which it was under way. *)
Lemma exchange_end (w2 : world) (r : fetch_result) (request : fetch_request)
      (t : list event) (sc : option string) (port : option N) :
  promises w2 = [Pending] ->
  trace w2 = (t ++ [Fetch request])%list ->
  fetches t = [] ->
  Listeners.open_listeners t = [0%nat] ->
  server (this w2) = Some 0%nat ->
  sessionStore (this w2) = ∅ ->
  suspended w2 = [] ->
  promises (fst (callback_resume 0 r w2)) = [Runs.exchange_outcome r]
  /\ fetches (trace (fst (callback_resume 0 r w2))) = [request]
  /\ sessionStore (this (fst (callback_resume 0 r w2))) = ∅
  /\ server (this (fst (callback_resume 0 r w2))) = None
  /\ Listeners.open_listeners (trace (fst (callback_resume 0 r w2))) = []
  /\ suspended (fst (callback_resume 0 r w2)) = []
  /\ snd (authorize sc port (fst (callback_resume 0 r w2))) = Flow 1.
Proof.
  intros Hp Ht Hf Ho Hs Hstore Hsusp.
  destruct (callback_resume_world 0 r w2) as [p Hw].
  pose proof (callback_resume_outcome 0 r w2) as Hout.
  rewrite Hp in Hout. specialize (Hout eq_refl).
  assert (Hlen : List.length (promises (fst (callback_resume 0 r w2))) = 1%nat).
  { rewrite Hw, close_promises. unfold settle. rewrite Hp. reflexivity. }
  repeat split.
  - destruct (promises (fst (callback_resume 0 r w2))) as [|q [|q' u]];
      try discriminate Hlen. cbn in Hout. congruence.
  - rewrite Hw, close_fetches, settle_trace, Ht, fetches_app, Hf.
    reflexivity.
  - now rewrite Hw, close_client, settle_this.
  - rewrite Hw. apply close_server.
  - rewrite Hw, close_trace, settle_trace, settle_this, Hs, Ht.
    unfold Listeners.open_listeners in *. rewrite !fold_left_app, Ho.
    reflexivity.
  - now rewrite Hw, close_suspended, settle_suspended.
  - unfold authorize. rewrite Hw, close_server. cbn [snd].
    now rewrite <- Hw, Hlen.
Qed.

End Login.

(** X11. A login carried through from a freshly constructed client --
    [authorize], the listener bound, the browser through [/auth], the
    provider's redirect back with the issued state and a code, the token
    endpoint's answer -- settles the promise with the outcome of the
    exchange (resolved with the tokens on a 200, rejected otherwise),
    sends exactly one request to the network, the exchange with the
    issued verifier, leaves the session store empty, no listener open
    and no handler waiting; and the client accepts a new [authorize]. *)
Theorem login_completes (c : config) (e : nat -> N) (sc : option string)
        (port : option N) (bound : N) (code : string) (r : fetch_result) :
  code <> "" ->
  let wb := exec_all [Authorize sc port; Listening bound] (new_world c e) in
  let done := Runs.login sc port bound code r (new_world c e) in
  promises done = [Runs.exchange_outcome r]
  /\ fetches (trace done)
     = [exchange_request (this wb) code (Js.Own (next_verifier wb))]
  /\ sessionStore (this done) = ∅
  /\ server (this done) = None
  /\ Listeners.open_listeners (trace done) = []
  /\ suspended done = []
  /\ snd (authorize sc port done) = Flow 1.
Proof.
  intros Hcode. cbv zeta. rewrite (login_end c e sc port bound code r Hcode).
  destruct (started_world c e sc port bound)
    as (Happ & Hserver & Hstore0 & Hprom & Hsusp0 & Hcfg & Haddr & Htrace).
  set (wb := exec_all [Authorize sc port; Listening bound] (new_world c e))
    in *.
  clearbody wb.
  set (request := exchange_request (this wb) code (Js.Own (next_verifier wb))).
  destruct (exchange_world wb request
              (base.delete (next_state wb)
                 (sessionStore (this (fst (auth_handler wb))))))
    as (Hp & Ht & Hs & Hstore & Hsusp).
  rewrite Hprom in Hp. rewrite Hserver in Hs.
  assert (Hd : base.delete (next_state wb)
                 (sessionStore (this (fst (auth_handler wb)))) = ∅).
  { rewrite auth_handler_store, delete_insert_eq, Hstore0.
    apply delete_empty. }
  refine (exchange_end _ r request (trace wb) sc port Hp Ht _ _ Hs
                       (eq_trans Hstore Hd) Hsusp);
    rewrite Htrace; reflexivity.
Qed.

Lemma login_completes_witness :
  "auth-code" <> ""
  /\ (let wb :=
        exec_all [Authorize (Some "email") (Some 8080%N); Listening 8080]
                 (new_world Demo.config0 Demo.entropy0) in
      let done :=
        Runs.login (Some "email") (Some 8080%N) 8080 "auth-code"
                   (Response 200 (Json Demo.tokens0))
                   (new_world Demo.config0 Demo.entropy0) in
      promises done
      = [Runs.exchange_outcome (Response 200 (Json Demo.tokens0))]
      /\ fetches (trace done)
         = [exchange_request (this wb) "auth-code"
                             (Js.Own (next_verifier wb))]
      /\ sessionStore (this done) = ∅
      /\ server (this done) = None
      /\ Listeners.open_listeners (trace done) = []
      /\ suspended done = []
      /\ snd (authorize (Some "email") (Some 8080%N) done) = Flow 1).
Proof.
  split; [discriminate|].
  apply (login_completes Demo.config0 Demo.entropy0 (Some "email")
           (Some 8080%N) 8080 "auth-code" (Response 200 (Json Demo.tokens0))).
  discriminate.
Defined.

(* ===================================================================== *)
(** ** A replay while the exchange is under way *)
(* ===================================================================== *)

Section ReplayDuringExchange.



End ReplayDuringExchange.



(* ===================================================================== *)
(** ** Answers of the token and revocation endpoints *)
(* ===================================================================== *)

Section EndpointAnswers.

Lemma failure_message_nonempty (json : token_response) :
  failure_message json <> "".
Proof.
  unfold failure_message, Js.or.
  destruct (error_description json) as [[|a d]|];
    destruct (error json) as [[|b e]|]; discriminate.
Qed.

Lemma revoke_not_200 (c : config) (tok ty : string) (net : network)
      (st : N) (json : token_response) :
  net [] (revoke_request c tok ty) = Response st (Json json) ->
  st <> 200%N ->
  run net [] (revoke c tok ty)
  = ([revoke_request c tok ty], Failed (failure_message json)).
Proof.
  intros Hn Hst. simpl. rewrite Hn.
  destruct (N.eqb_spec st 200); [contradiction|reflexivity].
Qed.

End EndpointAnswers.

(** X13. When the endpoint answers with a status other than 200 and a
    JSON body, [refresh] and [revoke] both fail after that one request,
    with the same message: the body's [error_description] if it is a
    non-empty string, else its [error] if that is a non-empty string,
    else [Unknown Error].  The message is never empty. *)
Theorem upstream_rejection (c : config) (token tokenType : string)
        (net : network) (st : N) (json : token_response) :
  net [] (refresh_request c token) = Response st (Json json) ->
  net [] (revoke_request c token tokenType) = Response st (Json json) ->
  st <> 200%N ->
  run net [] (refresh c token)
  = ([refresh_request c token], Failed (failure_message json))
  /\ run net [] (revoke c token tokenType)
     = ([revoke_request c token tokenType], Failed (failure_message json))
  /\ failure_message json <> ""
  /\ failure_message json
     = match error_description json, error json with
       | Some (String a d), _ => String a d
       | _, Some (String b e) => String b e
       | _, _ => "Unknown Error"
       end.
Proof.
  intros H1 H2 Hst. repeat split.
  - exact (refresh_not_200 c token net st json H1 Hst).
  - exact (revoke_not_200 c token tokenType net st json H2 Hst).
  - apply failure_message_nonempty.
  - unfold failure_message, Js.or.
    destruct (error_description json) as [[|a d]|];
      destruct (error json) as [[|b e]|]; reflexivity.
Qed.

Lemma upstream_rejection_witness :
  let net : network :=
    fun _ _ => Response 401
                 (Json (TokenResponse None None (Some "invalid_client")
                                      (Some "") [])) in
  let json := TokenResponse None None (Some "invalid_client") (Some "") [] in
  net [] (refresh_request Demo.config0 "rt") = Response 401 (Json json)
  /\ net [] (revoke_request Demo.config0 "rt" "refresh_token")
     = Response 401 (Json json)
  /\ 401%N <> 200%N
  /\ (run net [] (refresh Demo.config0 "rt")
      = ([refresh_request Demo.config0 "rt"], Failed (failure_message json))
      /\ run net [] (revoke Demo.config0 "rt" "refresh_token")
         = ([revoke_request Demo.config0 "rt" "refresh_token"],
            Failed (failure_message json))
      /\ failure_message json <> ""
      /\ failure_message json
         = match error_description json, error json with
           | Some (String a d), _ => String a d
           | _, Some (String b e) => String b e
           | _, _ => "Unknown Error"
           end).
Proof.
  cbv zeta. split; [reflexivity|]. split; [reflexivity|].
  split; [discriminate|].
  apply (upstream_rejection Demo.config0 "rt" "refresh_token"
           (fun _ _ => Response 401
                         (Json (TokenResponse None None (Some "invalid_client")
                                              (Some "") [])))
           401);
    first [reflexivity | discriminate].
Defined.

(** X14. A 200 whose body cannot be read as JSON: [revoke] succeeds,
    because it reads the body only when the status is not 200; [refresh]
    fails with the parser's error, because it reads the body before it
    looks at the status.  Each sends its one request. *)
Theorem unreadable_200 (c : config) (token tokenType message : string)
        (net : network) :
  net [] (refresh_request c token) = Response 200 (BadJson message) ->
  net [] (revoke_request c token tokenType)
  = Response 200 (BadJson message) ->
  run net [] (revoke c token tokenType)
  = ([revoke_request c token tokenType], Fulfilled tt)
  /\ run net [] (refresh c token)
     = ([refresh_request c token], Failed message).
Proof.
  intros H1 H2. split; simpl; [rewrite H2|rewrite H1]; reflexivity.
Qed.

Lemma unreadable_200_witness :
  let net : network := fun _ _ => Response 200 (BadJson "Unexpected end") in
  net [] (refresh_request Demo.config0 "rt")
  = Response 200 (BadJson "Unexpected end")
  /\ net [] (revoke_request Demo.config0 "rt" "refresh_token")
     = Response 200 (BadJson "Unexpected end")
  /\ (run net [] (revoke Demo.config0 "rt" "refresh_token")
      = ([revoke_request Demo.config0 "rt" "refresh_token"], Fulfilled tt)
      /\ run net [] (refresh Demo.config0 "rt")
         = ([refresh_request Demo.config0 "rt"], Failed "Unexpected end")).
Proof.
  cbv zeta. split; [reflexivity|]. split; [reflexivity|].
  apply (unreadable_200 Demo.config0 "rt" "refresh_token" "Unexpected end"
           (fun _ _ => Response 200 (BadJson "Unexpected end")));
    reflexivity.
Defined.

(* ===================================================================== *)
(** ** The metadata server *)
(* ===================================================================== *)

Import Metadata.

Section Sessions.

Lemma refresh_session_none (success : token_response -> reply)
      (c : config) (net : network) (kc : gmap (string * string) string) :
  Js.truthy (getPassword kc APP_ID "RefreshToken") = false ->
  refresh_session success c net kc
  = Handled kc [] (Reply 400 (JsonObject [("error", no_session)])) false.
Proof. intros H. unfold refresh_session. now rewrite H. Qed.

Lemma setPassword_others (kc : gmap (string * string) string)
      (s a p : string) :
  deletePassword (setPassword kc s a p) s a = deletePassword kc s a.
Proof. unfold deletePassword, setPassword. apply delete_insert_eq. Qed.

Lemma getPassword_set (kc : gmap (string * string) string) (s a p : string) :
  getPassword (setPassword kc s a p) s a = Some p.
Proof. unfold getPassword, setPassword. apply lookup_insert_eq. Qed.

Lemma getPassword_deleted (kc : gmap (string * string) string)
      (s a : string) :
  getPassword (deletePassword kc s a) s a = None.
Proof. unfold getPassword, deletePassword. apply lookup_delete_eq. Qed.

End Sessions.

(** X15. [GET /token] and [GET /idptoken] with a stored refresh token
    send one request, the refresh of that token, and never end the
    process.  On a 200 they answer 200 with the identity token (as text,
    or as the member [id_token]) and the stored token becomes the
    [refresh_token] of the answer when that is a non-empty string, and
    stays as it was otherwise.  On any failure they answer 400 with the
    error message and leave the credential store untouched.  No other
    entry of the credential store is ever changed. *)
Theorem refresh_session_rotates (c : config) (net : network)
        (kc : gmap (string * string) string) (t : string) :
  getPassword kc APP_ID "RefreshToken" = Some t ->
  t <> "" ->
  let h := token_handler c net kc in
  let h' := idptoken_handler c net kc in
  requests h = [refresh_request c t]
  /\ requests h' = [refresh_request c t]
  /\ keychain h' = keychain h
  /\ exited h = false /\ exited h' = false
  /\ deletePassword (keychain h) APP_ID "RefreshToken"
     = deletePassword kc APP_ID "RefreshToken"
  /\ match net [] (refresh_request c t) with
     | Response st (Json resp) =>
         if N.eqb st 200 then
           answer h = Reply 200 (Text (sent_text (id_token resp)))
           /\ answer h'
              = Reply 200 (JsonObject (members [("id_token", id_token resp)]))
           /\ getPassword (keychain h) APP_ID "RefreshToken"
              = (if Js.truthy (refresh_token resp) then refresh_token resp
                 else Some t)
         else
           answer h
           = Reply 400 (JsonObject [("error", failure_message resp)])
           /\ answer h' = answer h
           /\ keychain h = kc
     | Response _ (BadJson m) | NetworkError m =>
         answer h = Reply 400 (JsonObject [("error", m)])
         /\ answer h' = answer h
         /\ keychain h = kc
     end.
Proof.
  intros Hk Ht. cbv zeta.
  unfold token_handler, idptoken_handler, refresh_session.
  rewrite Hk. destruct t as [|a t']; [contradiction|].
  cbn [Js.truthy Js.show]. simpl run.
  destruct (net [] (refresh_request c (String a t'))) as [st [resp|m]|m];
    cbn; try (repeat split; reflexivity).
  destruct (N.eqb st 200); cbn; [|repeat split; reflexivity].
  destruct (refresh_token resp) as [[|b r]|]; cbn; repeat split;
    try reflexivity; try assumption;
    first [apply setPassword_others | apply getPassword_set].
Qed.

Lemma refresh_session_rotates_witness :
  getPassword Sessions.stored APP_ID "RefreshToken" = Some "old-token"
  /\ "old-token" <> ""
  /\ (let h := token_handler Demo.config0 Sessions.rotating Sessions.stored in
      let h' :=
        idptoken_handler Demo.config0 Sessions.rotating Sessions.stored in
      requests h = [refresh_request Demo.config0 "old-token"]
      /\ requests h' = [refresh_request Demo.config0 "old-token"]
      /\ keychain h' = keychain h
      /\ exited h = false /\ exited h' = false
      /\ deletePassword (keychain h) APP_ID "RefreshToken"
         = deletePassword Sessions.stored APP_ID "RefreshToken"
      /\ match Sessions.rotating [] (refresh_request Demo.config0 "old-token")
         with
         | Response st (Json resp) =>
             if N.eqb st 200 then
               answer h = Reply 200 (Text (sent_text (id_token resp)))
               /\ answer h'
                  = Reply 200
                      (JsonObject (members [("id_token", id_token resp)]))
               /\ getPassword (keychain h) APP_ID "RefreshToken"
                  = (if Js.truthy (refresh_token resp)
                     then refresh_token resp else Some "old-token")
             else
               answer h
               = Reply 400 (JsonObject [("error", failure_message resp)])
               /\ answer h' = answer h
               /\ keychain h = Sessions.stored
         | Response _ (BadJson m) | NetworkError m =>
             answer h = Reply 400 (JsonObject [("error", m)])
             /\ answer h' = answer h
             /\ keychain h = Sessions.stored
         end).
Proof.
  assert (K : getPassword Sessions.stored APP_ID "RefreshToken"
              = Some "old-token") by (vm_compute; reflexivity).
  split; [exact K|]. split; [discriminate|].
  apply (refresh_session_rotates Demo.config0 Sessions.rotating
           Sessions.stored "old-token" K).
  discriminate.
Defined.

(** X16. [GET /logout] deletes the stored refresh token whatever
    happens next, and touches no other entry.  It sends the refresh of
    the token that was stored -- of the text [null] when none was -- and,
    only when that is answered 200 with a readable body, the revocation
    of the same token.  When the revocation is answered 200 as well, it
    redirects to [logoutUri] with the [id_token] of the refresh as
    [id_token_hint] and ends the process.  In every other case it
    answers 500 with the message of the failure -- that of the refresh,
    then no revocation is sent, or that of the revocation -- and the
    process goes on.  After it, [GET /token] and [GET /idptoken] answer
    400 [No session detected] without sending anything. *)
Theorem logout_ends_session (c : config) (net net' : network)
        (kc : gmap (string * string) string) :
  let h := logout_handler c net kc in
  let tok := Js.show_nullable (getPassword kc APP_ID "RefreshToken") in
  let first := refresh_request c tok in
  let second := revoke_request c tok "refresh_token" in
  let failed sent message :=
    requests h = sent
    /\ answer h = Reply 500 (Text message)
    /\ exited h = false in
  keychain h = deletePassword kc APP_ID "RefreshToken"
  /\ getPassword (keychain h) APP_ID "RefreshToken" = None
  /\ match net [] first with
     | Response st (Json resp) =>
         if N.eqb st 200 then
           match net [first] second with
           | Response st2 body2 =>
               if N.eqb st2 200 then
                 requests h = [first; second]
                 /\ answer h
                    = Reply 302
                        (RedirectTo (logoutUri c ++ "?id_token_hint="
                                     ++ Js.show (id_token resp)))
                 /\ exited h = true
               else
                 match body2 with
                 | Json json => failed [first; second] (failure_message json)
                 | BadJson m => failed [first; second] m
                 end
           | NetworkError m => failed [first; second] m
           end
         else failed [first] (failure_message resp)
     | Response _ (BadJson m) | NetworkError m => failed [first] m
     end
  /\ token_handler c net' (keychain h)
     = Handled (keychain h) []
               (Reply 400 (JsonObject [("error", no_session)])) false
  /\ idptoken_handler c net' (keychain h)
     = Handled (keychain h) []
               (Reply 400 (JsonObject [("error", no_session)])) false.
Proof.
  cbv zeta.
  assert (Hk : keychain (logout_handler c net kc)
               = deletePassword kc APP_ID "RefreshToken").
  { unfold logout_handler. now destruct (run _ _ _) as [sent [url|m]]. }
  assert (Hnone : Js.truthy (getPassword (keychain (logout_handler c net kc))
                               APP_ID "RefreshToken") = false).
  { now rewrite Hk, getPassword_deleted. }
  split; [exact Hk|]. split; [now rewrite Hk, getPassword_deleted|].
  split; [|split].
  - unfold logout_handler, revokeAndGetLogoutUrl. simpl run.
    set (tok := Js.show_nullable (getPassword kc APP_ID "RefreshToken")).
    destruct (net [] (refresh_request c tok)) as [st [json|m]|m];
      cbn; try (repeat split; reflexivity).
    destruct (N.eqb st 200); cbn; [|repeat split; reflexivity].
    destruct (net [refresh_request c tok]
                  (revoke_request c tok "refresh_token"))
      as [st2 [json2|m2]|m2]; cbn; try (repeat split; reflexivity).
    + destruct (N.eqb st2 200); cbn; repeat split; reflexivity.
    + destruct (N.eqb st2 200); cbn; repeat split; reflexivity.
  - now apply refresh_session_none.
  - now apply refresh_session_none.
Qed.

Section Main.

(** The promise of the flow [main] starts, once its login is carried
    through. *)
Lemma main_login_promise (c : config) (e : nat -> N) (bound : N)
      (code : string) (r : fetch_result) :
  code <> "" ->
  promises (Runs.login (Some "offline_access email") None bound code r
                       (new_world c e))
  = [Runs.exchange_outcome r].
Proof.
  intros Hcode.
  rewrite (login_end c e (Some "offline_access email") None bound code r
                     Hcode).
  destruct (started_world c e (Some "offline_access email") None bound)
    as (Happ & Hserver & Hstore0 & Hprom & Hsusp0 & Hcfg & Haddr & Htrace).
  set (wb := exec_all [Authorize (Some "offline_access email") None;
                       Listening bound] (new_world c e)) in *.
  clearbody wb.
  set (request := exchange_request (this wb) code (Js.Own (next_verifier wb))).
  destruct (exchange_world wb request
              (base.delete (next_state wb)
                 (sessionStore (this (fst (auth_handler wb))))))
    as (Hp & Ht & Hs & Hstore & Hsusp).
  rewrite Hprom in Hp. rewrite Hserver in Hs.
  assert (Hd : base.delete (next_state wb)
                 (sessionStore (this (fst (auth_handler wb)))) = ∅).
  { rewrite auth_handler_store, delete_insert_eq, Hstore0.
    apply delete_empty. }
  refine (proj1 (exchange_end _ r request (trace wb) None None Hp Ht _ _ Hs
                              (eq_trans Hstore Hd) Hsusp));
    rewrite Htrace; reflexivity.
Qed.

(** The login of [main], from the world its [authorize] leaves. *)
Lemma main_login_run (c : config) (e : nat -> N)
      (kc : gmap (string * string) string) (bound : N) (code : string)
      (r : fetch_result) :
  exec_all [GetAuth;
            GetCallback
              (Runs.redirect_back
                 (exec (Listening bound) (snd (fst (main_begin c e kc))))
                 code);
            FetchDone 0 r]
           (exec (Listening bound) (snd (fst (main_begin c e kc))))
  = Runs.login (Some "offline_access email") None bound code r
               (new_world c e).
Proof.
  unfold Runs.login, main_begin, exec_all.
  cbn [fold_left fst snd exec]. reflexivity.
Qed.

End Main.

(** X17. [main] deletes the stored refresh token, then starts a flow for
    the scopes [offline_access email openid] on the default port.  When
    the login is carried through and the token endpoint answers 200 with
    a non-empty [refresh_token], [main] stores that token and starts the
    metadata server, and [GET /token] then refreshes with exactly that
    token. *)
Theorem main_login_succeeds (c : config) (e : nat -> N)
        (kc : gmap (string * string) string) (net : network) (bound : N)
        (code R : string) (json : token_response) :
  code <> "" ->
  refresh_token json = Some R ->
  R <> "" ->
  let kc1 := fst (fst (main_begin c e kc)) in
  let w0 := snd (fst (main_begin c e kc)) in
  let wb := exec (Listening bound) w0 in
  let done :=
    exec_all [GetAuth; GetCallback (Runs.redirect_back wb code);
              FetchDone 0 (Response 200 (Json json))] wb in
  snd (main_begin c e kc) = Flow 0
  /\ scopes (this w0) = "offline_access email openid"
  /\ trace w0 = [Listen 0 5555]
  /\ getPassword kc1 APP_ID "RefreshToken" = None
  /\ promises done = [Resolved json]
  /\ exists kc2,
      main_end (Resolved json) kc1 = Some (kc2, true)
      /\ getPassword kc2 APP_ID "RefreshToken" = Some R
      /\ requests (token_handler c net kc2) = [refresh_request c R].
Proof.
  intros Hcode HR Hne. cbv zeta.
  split; [reflexivity|]. split; [reflexivity|]. split; [reflexivity|].
  split; [apply getPassword_deleted|].
  split.
  - rewrite main_login_run.
    exact (main_login_promise c e bound code (Response 200 (Json json)) Hcode).
  - eexists. unfold main_end. rewrite HR.
    destruct R as [|a R']; [contradiction|]. cbn [Js.truthy Js.show].
    split; [reflexivity|]. split; [apply getPassword_set|].
    unfold token_handler, refresh_session. rewrite getPassword_set.
    cbn [Js.truthy Js.show]. simpl run.
    destruct (net [] (refresh_request c (String a R'))) as [st [j|m]|m];
      cbn; try reflexivity.
    destruct (N.eqb st 200); reflexivity.
Qed.

Lemma main_login_succeeds_witness :
  "auth-code" <> ""
  /\ refresh_token Demo.tokens0 = Some "Y"
  /\ "Y" <> ""
  /\ (let kc1 :=
        fst (fst (main_begin Demo.config0 Demo.entropy0 Sessions.stored)) in
      let w0 :=
        snd (fst (main_begin Demo.config0 Demo.entropy0 Sessions.stored)) in
      let wb := exec (Listening 5555) w0 in
      let done :=
        exec_all [GetAuth; GetCallback (Runs.redirect_back wb "auth-code");
                  FetchDone 0 (Response 200 (Json Demo.tokens0))] wb in
      snd (main_begin Demo.config0 Demo.entropy0 Sessions.stored) = Flow 0
      /\ scopes (this w0) = "offline_access email openid"
      /\ trace w0 = [Listen 0 5555]
      /\ getPassword kc1 APP_ID "RefreshToken" = None
      /\ promises done = [Resolved Demo.tokens0]
      /\ exists kc2,
          main_end (Resolved Demo.tokens0) kc1 = Some (kc2, true)
          /\ getPassword kc2 APP_ID "RefreshToken" = Some "Y"
          /\ requests (token_handler Demo.config0 Sessions.down kc2)
             = [refresh_request Demo.config0 "Y"]).
Proof.
  split; [discriminate|]. split; [reflexivity|]. split; [discriminate|].
  apply (main_login_succeeds Demo.config0 Demo.entropy0 Sessions.stored
           Sessions.down 5555 "auth-code" "Y" Demo.tokens0);
    first [reflexivity | discriminate].
Defined.

(** X18. When the login [main] starts ends in a rejection -- the token
    endpoint refuses the code, cannot be reached, or answers with an
    unreadable body -- [main] does not start the metadata server and
    stores nothing: the refresh token of an earlier run, deleted at the
    start, is gone, and [GET /token] and [GET /idptoken] would answer
    400 [No session detected] without sending anything. *)
Theorem main_login_fails (c : config) (e : nat -> N)
        (kc : gmap (string * string) string) (net : network) (bound : N)
        (code message : string) (r : fetch_result) :
  code <> "" ->
  Runs.exchange_outcome r = Rejected message ->
  let kc1 := fst (fst (main_begin c e kc)) in
  let w0 := snd (fst (main_begin c e kc)) in
  let wb := exec (Listening bound) w0 in
  let done :=
    exec_all [GetAuth; GetCallback (Runs.redirect_back wb code);
              FetchDone 0 r] wb in
  promises done = [Rejected message]
  /\ main_end (Rejected message) kc1 = Some (kc1, false)
  /\ getPassword kc1 APP_ID "RefreshToken" = None
  /\ token_handler c net kc1
     = Handled kc1 [] (Reply 400 (JsonObject [("error", no_session)])) false
  /\ idptoken_handler c net kc1
     = Handled kc1 [] (Reply 400 (JsonObject [("error", no_session)])) false.
Proof.
  intros Hcode Hr. cbv zeta.
  assert (Hnone : getPassword (fst (fst (main_begin c e kc))) APP_ID
                              "RefreshToken" = None)
    by apply getPassword_deleted.
  split.
  - rewrite main_login_run, <- Hr.
    exact (main_login_promise c e bound code r Hcode).
  - split; [reflexivity|]. split; [exact Hnone|].
    split; apply refresh_session_none; now rewrite Hnone.
Qed.

Lemma main_login_fails_witness :
  "auth-code" <> ""
  /\ Runs.exchange_outcome (NetworkError "connect ECONNREFUSED")
     = Rejected "connect ECONNREFUSED"
  /\ (let kc1 :=
        fst (fst (main_begin Demo.config0 Demo.entropy0 Sessions.stored)) in
      let w0 :=
        snd (fst (main_begin Demo.config0 Demo.entropy0 Sessions.stored)) in
      let wb := exec (Listening 5555) w0 in
      let done :=
        exec_all [GetAuth; GetCallback (Runs.redirect_back wb "auth-code");
                  FetchDone 0 (NetworkError "connect ECONNREFUSED")] wb in
      promises done = [Rejected "connect ECONNREFUSED"]
      /\ main_end (Rejected "connect ECONNREFUSED") kc1 = Some (kc1, false)
      /\ getPassword kc1 APP_ID "RefreshToken" = None
      /\ token_handler Demo.config0 Sessions.rotating kc1
         = Handled kc1 []
                   (Reply 400 (JsonObject [("error", no_session)])) false
      /\ idptoken_handler Demo.config0 Sessions.rotating kc1
         = Handled kc1 []
                   (Reply 400 (JsonObject [("error", no_session)])) false).
Proof.
  split; [discriminate|]. split; [reflexivity|].
  apply (main_login_fails Demo.config0 Demo.entropy0 Sessions.stored
           Sessions.rotating 5555 "auth-code" "connect ECONNREFUSED"
           (NetworkError "connect ECONNREFUSED"));
    first [reflexivity | discriminate].
Defined.

(* ===================================================================== *)
(** ** The hashed handles of the metadata server *)
(* ===================================================================== *)

Import Gateway.

Section Handles.

Lemma hex_lower_hex (n : nat) :
  n < 16 -> Js.occurs (hex_lower n) hex_chars = true.
Proof.
  intros H.
  do 16 (destruct n as [|n]; [reflexivity|]). lia.
Qed.

Lemma hex_of_bytes_shape (bs : list Z) :
  Forall (fun b => (0 <= b < 256)%Z) bs ->
  String.length (hex_of_bytes bs) = 2 * List.length bs
  /\ chars_in hex_chars (hex_of_bytes bs) = true.
Proof.
  induction 1 as [|b r Hb Hr [IHl IHc]]; [split; reflexivity|].
  cbn [hex_of_bytes String.length List.length]. split; [lia|].
  apply chars_in_cons; [|apply chars_in_cons; [|exact IHc]];
    apply hex_lower_hex.
  - assert (0 <= b / 16 < 16)%Z
      by (split; [apply Z.div_pos; lia | apply Z.div_lt_upper_bound; lia]).
    lia.
  - pose proof (Z.mod_pos_bound b 16 ltac:(lia)). lia.
Qed.

Lemma sha256_hex_shape (s : string) :
  String.length (sha256_hex s) = 64
  /\ chars_in hex_chars (sha256_hex s) = true.
Proof.
  unfold sha256_hex, Sha256.digest.
  destruct (digest_bytes_shape (Sha256.bytes_of_string s)) as [L R].
  destruct (hex_of_bytes_shape _ R) as [Hl Hc].
  rewrite Hl, L. split; [reflexivity|exact Hc].
Qed.

Lemma truthy_show (v : option string) :
  Js.truthy v = true -> v = Some (Js.show v) /\ Js.show v <> "".
Proof. destruct v as [[|c r]|]; try discriminate. now split. Qed.

Lemma keyed_gcpaccesstoken (inputToken : option string)
      (sts : string -> upstream (option string)) (m : gmap string string) :
  keyed m -> keyed (map_after (gcpaccesstoken inputToken sts m)).
Proof.
  intros K. unfold gcpaccesstoken.
  destruct (negb (Js.truthy inputToken)); [exact K|].
  destruct (sts (Js.show inputToken)) as [[t|]|msg]; try exact K.
  cbn [map_after]. intros h u H.
  destruct (decide (h = sha256_hex t)) as [->|N].
  - rewrite lookup_insert_eq in H. now inversion H.
  - rewrite lookup_insert_ne in H by congruence. exact (K h u H).
Qed.

Lemma issued_more (q : option string * (string -> upstream (option string)))
      (reqs : list (option string * (string -> upstream (option string))))
      (m : gmap string string) :
  issued reqs m -> issued (reqs ++ [q])%list m.
Proof.
  intros I h t H. destruct (I h t H) as (x & Hx & Hs).
  exists x. split; [apply in_or_app; now left|exact Hs].
Qed.

Lemma issued_gcpaccesstoken
      (q : option string * (string -> upstream (option string)))
      (reqs : list (option string * (string -> upstream (option string))))
      (m : gmap string string) :
  issued reqs m ->
  issued (reqs ++ [q])%list (map_after (gcpaccesstoken (fst q) (snd q) m)).
Proof.
  intros I. unfold gcpaccesstoken.
  destruct (negb (Js.truthy (fst q))); [now apply issued_more|].
  destruct (snd q (Js.show (fst q))) as [[t|]|msg] eqn:E;
    try now apply issued_more.
  cbn [map_after]. intros h u H.
  destruct (decide (h = sha256_hex t)) as [->|N].
  - rewrite lookup_insert_eq in H. inversion H; subst.
    exists q. split; [apply in_or_app; right; now left|exact E].
  - rewrite lookup_insert_ne in H by congruence.
    exact (issued_more q reqs m I h u H).
Qed.

Lemma exchanges_snoc
      (q : option string * (string -> upstream (option string)))
      (reqs : list (option string * (string -> upstream (option string))))
      (m : gmap string string) :
  exchanges (reqs ++ [q])%list m
  = map_after (gcpaccesstoken (fst q) (snd q) (exchanges reqs m)).
Proof. unfold exchanges. now rewrite fold_left_app. Qed.

Lemma exchanges_keyed_issued
      (reqs : list (option string * (string -> upstream (option string)))) :
  keyed (exchanges reqs ∅) /\ issued reqs (exchanges reqs ∅).
Proof.
  induction reqs as [|q reqs [K I]] using rev_ind.
  - split; intros h t H; cbn in H; rewrite lookup_empty in H; discriminate.
  - rewrite exchanges_snoc. split.
    + now apply keyed_gcpaccesstoken.
    + now apply issued_gcpaccesstoken.
Qed.

End Handles.



(** X20. The handle that [/gcpaccesstoken] hands out is accepted by
    [/gcpprojects] of the same server: given a non-empty access token,
    the handler calls the resource manager with [Bearer] and that access
    token, answers 200 with the fixed list of two projects when the call
    succeeds and 400 with the error message when it throws. *)
Theorem handle_round_trip (inputToken : option string)
        (sts : string -> upstream (option string))
        (crm : string -> upstream unit)
        (tokenMap : gmap string string) (accessToken h : string) :
  Js.truthy inputToken = true ->
  sts (Js.show inputToken) = Answered (Some accessToken) ->
  accessToken <> "" ->
  exchange_reply (gcpaccesstoken inputToken sts tokenMap)
  = Reply 200 (JsonObject [("access_token", h)]) ->
  gcpprojects (Some h) crm (map_after (gcpaccesstoken inputToken sts tokenMap))
  = Listed (Some ("Bearer " ++ accessToken))
      (match crm ("Bearer " ++ accessToken) with
       | Answered _ =>
           Reply 200
             (JsonStrings "projects"
                ["sales-analysis-app"; "human-resource-management"])
       | Thrown message => Reply 400 (JsonObject [("error", message)])
       end).
Proof.
  intros T A N. unfold gcpaccesstoken. rewrite T, A.
  cbn [negb exchange_reply map_after]. intros R.
  injection R as <-.
  destruct (sha256_hex_shape accessToken) as [L _].
  unfold gcpprojects.
  destruct (sha256_hex accessToken) as [|c r] eqn:E; [discriminate L|].
  cbn [Js.truthy negb Js.show]. rewrite lookup_insert_eq.
  destruct accessToken as [|a t]; [congruence|].
  cbn [Js.truthy negb Js.show].
  destruct (crm _); reflexivity.
Qed.

Lemma handle_round_trip_witness :
  Js.truthy (Some "id-token") = true
  /\ (fun _ : string => Answered (Some "ya29.token")) (Js.show (Some "id-token"))
     = Answered (Some "ya29.token")
  /\ "ya29.token" <> ""
  /\ exchange_reply
       (gcpaccesstoken (Some "id-token")
          (fun _ => Answered (Some "ya29.token")) ∅)
     = Reply 200 (JsonObject [("access_token", sha256_hex "ya29.token")])
  /\ gcpprojects (Some (sha256_hex "ya29.token")) (fun _ => Answered tt)
       (map_after
          (gcpaccesstoken (Some "id-token")
             (fun _ => Answered (Some "ya29.token")) ∅))
     = Listed (Some ("Bearer " ++ "ya29.token"))
         (match (fun _ : string => Answered tt) ("Bearer " ++ "ya29.token") with
          | Answered _ =>
              Reply 200
                (JsonStrings "projects"
                   ["sales-analysis-app"; "human-resource-management"])
          | Thrown message => Reply 400 (JsonObject [("error", message)])
          end).
Proof.
  split; [reflexivity|]. split; [reflexivity|]. split; [discriminate|].
  split; [reflexivity|].
  apply (handle_round_trip (Some "id-token")
           (fun _ => Answered (Some "ya29.token")) (fun _ => Answered tt)
           ∅ "ya29.token" (sha256_hex "ya29.token"));
    first [reflexivity | discriminate].
Defined.

(** X21. Starting from the empty token map and after any series of
    [/gcpaccesstoken] requests, [/gcpprojects] calls the resource
    manager only with [Bearer] and a non-empty access token that the
    exchange answered to one of those requests, and only when the handle
    it was given is the SHA-256 of that token in hexadecimal; whenever it
    makes no call it answers 400. *)
Theorem gcpprojects_sends_issued
        (reqs : list (option string * (string -> upstream (option string))))
        (hashedToken : option string) (crm : string -> upstream unit) :
  match authorization_sent (gcpprojects hashedToken crm (exchanges reqs ∅)) with
  | Some a =>
      exists t, a = "Bearer " ++ t
        /\ t <> ""
        /\ hashedToken = Some (sha256_hex t)
        /\ exists q, In q reqs /\ snd q (Js.show (fst q)) = Answered (Some t)
  | None =>
      reply_status (list_reply (gcpprojects hashedToken crm (exchanges reqs ∅)))
      = 400%N
  end.
Proof.
  destruct (exchanges_keyed_issued reqs) as [K I].
  unfold gcpprojects.
  destruct (Js.truthy hashedToken) eqn:T; [|reflexivity].
  cbn [negb]. destruct (truthy_show _ T) as [Hh _].
  destruct (exchanges reqs ∅ !! Js.show hashedToken) as [t|] eqn:E;
    [|reflexivity].
  destruct (Js.truthy (Some t)) eqn:Tt; [|reflexivity].
  cbn [negb]. destruct (truthy_show _ Tt) as [_ Nt]. cbn [Js.show] in *.
  assert (exists u, "Bearer " ++ t = "Bearer " ++ u /\ u <> ""
            /\ hashedToken = Some (sha256_hex u)
            /\ exists q, In q reqs
                 /\ snd q (Js.show (fst q)) = Answered (Some u)) as G.
  { exists t. split; [reflexivity|]. split; [exact Nt|]. split.
    - rewrite Hh. f_equal. exact (K _ _ E).
    - exact (I _ _ E). }
  destruct (crm _); exact G.
Qed.

(** X22. [GET /gcpprojects] of [login/index.js] reads the second
    space-separated word of the [Authorization] header and does not look
    at the first: it calls the resource manager with [Bearer] and that
    word, or answers 401 without a call when the word is empty; without
    the header it throws before answering. *)
Theorem header_second_word (scheme t : string) (more : list string)
        (crm : string -> upstream (list string)) :
  Forall (fun x => Js.occurs " " x = false) (scheme :: t :: more) ->
  gcpprojects_by_header (Some (Js.join " " (scheme :: t :: more))) crm
  = Some
      (match t with
       | "" =>
           Listed None
                  (Reply 401 (JsonObject [("error", "Missing access token.")]))
       | _ =>
           match crm ("Bearer " ++ t) with
           | Answered projects =>
               Listed (Some ("Bearer " ++ t))
                      (Reply 200 (JsonStrings "projects" projects))
           | Thrown message =>
               Listed (Some ("Bearer " ++ t))
                      (Reply 400 (JsonObject [("error", message)]))
           end
       end)
  /\ gcpprojects_by_header None crm = None.
Proof.
  intros F. split; [|reflexivity].
  unfold gcpprojects_by_header, header_token.
  rewrite (split_join " " (scheme :: t :: more)) by (congruence || exact F).
  cbn [nth_error]. destruct t as [|c r]; reflexivity.
Qed.

Lemma header_second_word_witness :
  Forall (fun x => Js.occurs " " x = false) ["Basic"; "ya29.token"]
  /\ gcpprojects_by_header (Some (Js.join " " ["Basic"; "ya29.token"]))
       (fun _ => Answered ["p1"; "p2"])
     = Some
         (match "ya29.token" with
          | "" =>
              Listed None
                (Reply 401 (JsonObject [("error", "Missing access token.")]))
          | _ =>
              match (fun _ : string => Answered ["p1"; "p2"])
                      ("Bearer " ++ "ya29.token") with
              | Answered projects =>
                  Listed (Some ("Bearer " ++ "ya29.token"))
                         (Reply 200 (JsonStrings "projects" projects))
              | Thrown message =>
                  Listed (Some ("Bearer " ++ "ya29.token"))
                         (Reply 400 (JsonObject [("error", message)]))
              end
          end)
     /\ gcpprojects_by_header None
          (fun _ : string => Answered ["p1"; "p2"]) = None.
Proof.
  split; [repeat constructor|].
  apply (header_second_word "Basic" "ya29.token" []
           (fun _ => Answered ["p1"; "p2"])).
  repeat constructor.
Defined.
